(** * cubes: attribute-scoped authorization and SQL utilities

    A shallow embedding of [cubes/custom_auth.py] and [cubes/sql/utils.py]
    with the properties their specification states about them.

    Python values are modelled as follows: [str] is [string], a [set] of
    strings is a [gset string], a [dict] used as a map is a [gmap], an
    [OrderedDict] is an association list in insertion order, [None] is the
    [None] of [option], and code that may raise returns a [result]. *)

From Stdlib Require Import Ascii String List Bool.
From stdpp Require Import base option list gmap strings.


(** ** Python built-ins used by the sources *)

Module Py.

(** The exceptions the two modules can raise or let through. *)
Inductive exn : Type :=
  | URLError (reason : string)
  | HTTPError (status : Z)
  | UnicodeDecodeError
  | JSONDecodeError
  | AttributeError (what : string)
  | KeyError (key : string)
  | NameError (name : string)
  | TypeError (what : string)
  | ArgumentError (msg : string)
  | ConfigurationError (msg : string).

(** A computation that returns a value or raises. *)
Inductive result (A : Type) : Type :=
  | Ok (a : A)
  | Raise (e : exn).
Arguments Ok {A} a.
Arguments Raise {A} e.

Definition bind {A B} (r : result A) (k : A → result B) : result B :=
  match r with
  | Ok a => k a
  | Raise e => Raise e
  end.

#[global] Instance result_ret : MRet result := λ A a, Ok a.
#[global] Instance result_bind : MBind result := λ A B k r, bind r k.

(** Evaluating a name that is bound neither in the function, nor in its
    module, nor among the built-ins. *)
Definition unbound {A} (name : string) : result A := Raise (NameError name).

(** [s.startswith(p)] *)
Fixpoint startswith (s p : string) {struct p} : bool :=
  match p, s with
  | EmptyString, _ => true
  | String _ _, EmptyString => false
  | String c p', String d s' => Ascii.eqb c d && startswith s' p'
  end.

(** [s.endswith(p)]: the last [len(p)] characters of [s] are [p]. *)
Definition endswith (s p : string) : bool :=
  let n := String.length s in
  let m := String.length p in
  (m <=? n)%nat && String.eqb (substring (n - m) m s) p.

(** [s[1:]] *)
Definition slice_from_1 (s : string) : string :=
  match s with
  | EmptyString => EmptyString
  | String _ s' => s'
  end.

(** [s[:-1]] *)
Fixpoint slice_to_last (s : string) : string :=
  match s with
  | EmptyString => EmptyString
  | String _ EmptyString => EmptyString
  | String c s' => String c (slice_to_last s')
  end.

(** [c.lower()] on one character, and [s.lower()]. *)
Definition lower_ascii (c : ascii) : ascii :=
  let n := nat_of_ascii c in
  if ((65 <=? n) && (n <=? 90))%nat then ascii_of_nat (n + 32) else c.

Fixpoint lower (s : string) : string :=
  match s with
  | EmptyString => EmptyString
  | String c s' => String (lower_ascii c) (lower s')
  end.

(** Truth value of a sequence: non-empty. *)
Definition truthy_list {A} (l : list A) : bool :=
  match l with
  | [] => false
  | _ :: _ => true
  end.

(** Truth value of a sequence that may be [None]. *)
Definition truthy_opt {A} (l : option (list A)) : bool :=
  match l with
  | Some l => truthy_list l
  | None => false
  end.

(** Truth value of a string: non-empty. *)
Definition truthy_str (s : string) : bool :=
  match s with
  | EmptyString => false
  | String _ _ => true
  end.

(** Truth value of a set: non-empty. *)
Definition truthy_set (s : gset string) : bool :=
  truthy_list (elements s).

(** [x in s] for a set of strings. *)
Definition in_set (x : string) (s : gset string) : bool :=
  bool_decide (x ∈ s).

(** [any(f(p) for p in l)] *)
Definition any {A} (f : A → bool) (l : list A) : bool := existsb f l.

(** The [str()] protocol. *)
Class Str (A : Type) := str : A → string.
#[global] Instance str_string : Str string := λ s, s.

End Py.

Import Py.

(** ** The model classes the two modules import *)

Module Cells.

(** Modelled from the spec: the classes [Cube], [Dimension], [Cut] and
    [Cell] of [cubes.model] and [cubes.cells] are not among the sources.
    A cube is known by its name ([str(cube)] is that name); a dimension
    carries its [info] dictionary; a resolved cut names a dimension, the
    values it restricts the dimension to, and carries a [hidden] flag; a
    cell is an ordered sequence of cuts scoped to one cube.  Two cuts are
    [==] when all their fields are. *)
Record Cube : Type := { cube_name : string }.

Record Dimension : Type := {
  dim_name : string;
  info : gmap string string
}.

Record Cut : Type := {
  dimension : Dimension;
  values : list string;
  hidden : bool
}.

Record Cell : Type := {
  cube : Cube;
  cuts : list Cut
}.

#[global] Instance Cube_eq_dec : EqDecision Cube.
Proof. solve_decision. Defined.
#[global] Instance Dimension_eq_dec : EqDecision Dimension.
Proof. solve_decision. Defined.
#[global] Instance Cut_eq_dec : EqDecision Cut.
Proof. solve_decision. Defined.
#[global] Instance Cell_eq_dec : EqDecision Cell.
Proof. solve_decision. Defined.

#[global] Instance str_Cube : Str Cube := cube_name.

(** [cut.hidden = True] *)
Definition set_hidden (cut : Cut) : Cut :=
  {| dimension := dimension cut; values := values cut; hidden := true |}.

(** Modelled from the spec: [Cell(cube)] is the cell with no cuts, the
    unrestricted cell of its cube. *)
Definition Cell_of_cube (c : Cube) : Cell := {| cube := c; cuts := [] |}.

(** Modelled from the spec: the intersection [a & b] is a new cell whose
    cuts are the concatenation of both operands' cuts. *)
Definition cell_and (a b : Cell) : Cell :=
  {| cube := cube a; cuts := cuts a ++ cuts b |}.

(** Modelled from the spec: in [if cell], a cell that was supplied counts
    as true and [None] as false. *)
Definition truthy_cell (cell : option Cell) : bool :=
  match cell with
  | Some _ => true
  | None => false
  end.

End Cells.

Import Cells.

(** ** [cubes/custom_auth.py] *)

Module CustomAuth.

(** Modelled from the spec: [ALL_CUBES_WILDCARD] is imported from
    [cubes.auth], which is not among the sources; the spec names the
    universal wildcard ["*"]. *)
Definition ALL_CUBES_WILDCARD : string := "*".

(** A decoded JSON value. *)
#[warnings="-register-all"]
Inductive json : Type :=
  | JNull
  | JBool (b : bool)
  | JNumber (n : Z)
  | JString (s : string)
  | JArray (items : list json)
  | JObject (members : list (string * json)).

(** The fields of the provider's response that the authorizer reads, with
    the types of the provider's HTTP contract.  A field is [None] when it
    is absent or [null]: [data.get(key)] gives [None] in both cases.  A cut
    specification or a level reference is any JSON value; the code tells the
    string form from the structured form at run time.  [hierarchy_limits]
    keeps the members in the order [items()] yields them. *)
Record RightsData : Type := {
  allowed_cubes_field : option (list string);
  denied_cubes_field : option (list string);
  cell_restrictions_field : option (gmap string (list json));
  hierarchy_limits_field : option (list (string * list json))
}.

(** What [json.load] returns: an object with the fields above, or some
    other JSON value, which has no [get]. *)
Inductive Payload : Type :=
  | PObject (data : RightsData)
  | PNotObject (j : json).

(** [data.get(key)] *)
Definition data_get {V} (field : RightsData → option V) (data : Payload)
  : result (option V) :=
  match data with
  | PObject d => Ok (field d)
  | PNotObject _ => Raise (AttributeError "get")
  end.

(** A hierarchy limit: the tuple [string_to_dimension_level] returns for a
    string, or a structured reference kept as it came. *)
Inductive Limit : Type :=
  | LimitLevel (dim : string) (hier level : option string)
  | LimitRaw (j : json).

(** The transport: [opener.open(url)] with the given [addheaders], and
    [json.load] on a UTF-8 reader of the response. *)
Class Http : Type := {
  opener_open : list (string * string) → string → result string;
  json_load : string → result Payload
}.

(** The parsers imported from [cubes.cells] and [cubes.model], which are
    not among the sources. *)
Class ModelParsers : Type := {
  cut_from_string : string → Cube → result Cut;
  cut_from_dict : json → result Cut;
  string_to_dimension_level : string → result (string * option string * option string)
}.

Record DematAccessRight : Type := {
  cell_restrictions : gmap string (list json);
  hierarchy_limits : gmap string (list Limit);
  allowed_cubes : gset string;
  denied_cubes : gset string;
  allowed_cube_suffix : list string;
  allowed_cube_prefix : list string;
  denied_cube_suffix : list string;
  denied_cube_prefix : list string
}.

(** One [for cube in ...] loop of [_get_patterns], over the elements of the
    set in the order the iteration yields them. *)
Fixpoint get_patterns_loop (cubes suffix prefix : list string)
  : list string * list string :=
  match cubes with
  | [] => (suffix, prefix)
  | cube :: rest =>
      let suffix :=
        if startswith cube "*" then suffix ++ [slice_from_1 cube] else suffix in
      let prefix :=
        if endswith cube "*" then prefix ++ [slice_to_last cube] else prefix in
      get_patterns_loop rest suffix prefix
  end.

(** [_get_patterns]: the four lists, from the two sets. *)
Definition _get_patterns (allowed denied : gset string)
  : (list string * list string) * (list string * list string) :=
  (get_patterns_loop (elements allowed) [] [],
   get_patterns_loop (elements denied) [] []).

Section Parsers.
Context `{ModelParsers}.

(** The inner loop of [__init__]: [for limit in limits]. *)
Fixpoint init_limits_loop (cube : string) (limits : list json)
    (acc : gmap string (list Limit)) : result (gmap string (list Limit)) :=
  match limits with
  | [] => Ok acc
  | limit :: rest =>
      limit ← match limit with
              | JString s =>
                  '(d, h, l) ← string_to_dimension_level s;
                  Ok (LimitLevel d h l)
              | j => Ok (LimitRaw j)
              end;
      init_limits_loop cube rest
        (<[cube := default [] (acc !! cube) ++ [limit]]> acc)
  end.

(** The outer loop: [for cube, limits in hierarchy_limits.items()]. *)
Fixpoint init_hierarchy_loop (items : list (string * list json))
    (acc : gmap string (list Limit)) : result (gmap string (list Limit)) :=
  match items with
  | [] => Ok acc
  | (cube, limits) :: rest =>
      acc ← init_limits_loop cube limits acc;
      init_hierarchy_loop rest acc
  end.

(** [_DematAccessRight.__init__].  An argument the caller leaves out takes
    its default, [[]] or [{}]. *)
Definition DematAccessRight_init
    (allowed_cubes denied_cubes : option (list string))
    (cell_restrictions : option (gmap string (list json)))
    (hierarchy_limits : option (list (string * list json)))
  : result DematAccessRight :=
  let cell_restrictions := default ∅ cell_restrictions in
  hierarchy_limits ←
    (if truthy_opt hierarchy_limits
     then init_hierarchy_loop (default [] hierarchy_limits) ∅
     else Ok ∅);
  let allowed_cubes : gset string :=
    if truthy_opt allowed_cubes
    then list_to_set (default [] allowed_cubes) else ∅ in
  let denied_cubes : gset string :=
    if truthy_opt denied_cubes
    then list_to_set (default [] denied_cubes) else ∅ in
  let '((allowed_suffix, allowed_prefix), (denied_suffix, denied_prefix)) :=
    _get_patterns allowed_cubes denied_cubes in
  Ok {| cell_restrictions := cell_restrictions;
        hierarchy_limits := hierarchy_limits;
        allowed_cubes := allowed_cubes;
        denied_cubes := denied_cubes;
        allowed_cube_suffix := allowed_suffix;
        allowed_cube_prefix := allowed_prefix;
        denied_cube_suffix := denied_suffix;
        denied_cube_prefix := denied_prefix |}.

End Parsers.

(** Lines 56 to 64 of [is_allowed]: the [allow] flag. *)
Definition allow_flag (self : DematAccessRight) (name : string) : bool :=
  let allow := false in
  if truthy_set (allowed_cubes self) then
    let allow :=
      if in_set name (allowed_cubes self)
         || in_set ALL_CUBES_WILDCARD (allowed_cubes self)
      then true else allow in
    let allow :=
      if negb allow && truthy_list (allowed_cube_prefix self)
      then any (λ p, startswith name p) (allowed_cube_prefix self)
      else allow in
    let allow :=
      if negb allow && truthy_list (allowed_cube_suffix self)
      then any (λ p, endswith name p) (allowed_cube_suffix self)
      else allow in
    allow
  else allow.

(** Lines 66 to 74 of [is_allowed]: the [deny] flag. *)
Definition deny_flag (self : DematAccessRight) (name : string) : bool :=
  let deny := false in
  if truthy_set (denied_cubes self) then
    let deny :=
      if in_set name (denied_cubes self)
         || in_set ALL_CUBES_WILDCARD (denied_cubes self)
      then true else deny in
    let deny :=
      if negb deny && truthy_list (denied_cube_prefix self)
      then any (λ p, startswith name p) (denied_cube_prefix self)
      else deny in
    let deny :=
      if negb deny && truthy_list (denied_cube_suffix self)
      then any (λ p, endswith name p) (denied_cube_suffix self)
      else deny in
    deny
  else deny.

(** [is_allowed(name, allow_after_denied)] *)
Definition is_allowed (self : DematAccessRight) (name : string)
    (allow_after_denied : bool) : bool :=
  let allow := allow_flag self name in
  let deny := deny_flag self name in
  if allow_after_denied then allow || negb deny
  else allow && negb deny.

Record DematAuthorizer : Type := {
  url : string;
  authorize_method : string;
  restricted_cell_method : string;
  hierarchy_limits_method : string;
  allow_after_denied : bool
}.

(** [DematAuthorizer.__init__]; the defaults of the three method names are
    ["authorize"], ["restricted-cell"] and ["hierarchy-limits"]. *)
Definition DematAuthorizer_init (url : option string)
    (authorize_method restricted_cell_method hierarchy_limits_method : string)
    (order : option string) : result DematAuthorizer :=
  url ← (if truthy_str (default "" url) then Ok (default "" url)
         else Raise (ConfigurationError "Missing authorizer url"));
  let order :=
    if truthy_str (default "" order) then default "" order
    else "deny_allow" in
  allow_after_denied ←
    (if String.eqb order "allow_deny" then Ok false
     else if String.eqb order "deny_allow" then Ok true
     else Raise (ConfigurationError ("Unknown allow/deny order: " +:+ order)));
  Ok {| url := url;
        authorize_method := authorize_method;
        restricted_cell_method := restricted_cell_method;
        hierarchy_limits_method := hierarchy_limits_method;
        allow_after_denied := allow_after_denied |}.

(** The [cube] argument of [_rightRequest]: left out, a cube name, or a
    cube object. *)
Inductive cube_arg : Type :=
  | ArgNone
  | ArgName (name : string)
  | ArgCube (c : Cube).

Definition truthy_arg (a : cube_arg) : bool :=
  match a with
  | ArgNone => false
  | ArgName s => truthy_str s
  | ArgCube _ => true
  end.

#[global] Instance str_cube_arg : Str cube_arg := λ a,
  match a with
  | ArgNone => "None"
  | ArgName s => s
  | ArgCube c => str c
  end.

Section Authorizer.
Context `{Http} `{ModelParsers}.

(** [_rightRequest(identity, method, cube=None)] *)
Definition _rightRequest (self : DematAuthorizer) (identity method : string)
    (cube : cube_arg) : result Payload :=
  let addheaders := [("Authorization", "Token " +:+ identity)] in
  let url := url self +:+ method +:+ "/" in
  let url := if truthy_arg cube then url +:+ "?cube=" +:+ str cube else url in
  response ← opener_open addheaders url;
  json_load response.

(** The loop of [authorize]: [for cube in cubes]. *)
Fixpoint authorize_loop {A} `{Str A} (right : DematAccessRight)
    (allow_after_denied : bool) (cubes authorized : list A) : list A :=
  match cubes with
  | [] => authorized
  | cube :: rest =>
      let cube_name := str cube in
      let authorized :=
        if is_allowed right cube_name allow_after_denied
        then authorized ++ [cube] else authorized in
      authorize_loop right allow_after_denied rest authorized
  end.

(** [authorize(identity, cubes)] *)
Definition authorize {A} `{Str A} (self : DematAuthorizer)
    (identity : string) (cubes : list A) : list A :=
  match
    (data ← _rightRequest self identity (authorize_method self) ArgNone;
     allowed ← data_get allowed_cubes_field data;
     denied ← data_get denied_cubes_field data;
     DematAccessRight_init allowed denied (Some ∅) (Some []))
  with
  | Raise _ => []
  | Ok r => let right := r in
      authorize_loop right (allow_after_denied self) cubes []
  end.

(** The loop of [restricted_cell]: [for cut in cuts]. *)
Fixpoint restricted_cell_loop (cube : Cube) (cuts : list json)
    (restriction_cuts : list Cut) : result (list Cut) :=
  match cuts with
  | [] => Ok restriction_cuts
  | cut :: rest =>
      cut ← match cut with
            | JString s => cut_from_string s cube
            | j => cut_from_dict j
            end;
      let cut := set_hidden cut in
      restricted_cell_loop cube rest (restriction_cuts ++ [cut])
  end.

(** [restricted_cell(identity, cube, cell)].  [cuts += any_cuts] extends the
    list in place; when both names denote the same list (a cube named like
    the wildcard) the list is appended to itself, which is again the
    concatenation of the two.  The final [if cell] is the test of
    [truthy_cell]. *)
Definition restricted_cell (self : DematAuthorizer) (identity : string)
    (cube : Cube) (cell : option Cell) : result Cell :=
  data ← _rightRequest self identity (restricted_cell_method self)
           (ArgName (cube_name cube));
  restrictions ← data_get cell_restrictions_field data;
  right ← DematAccessRight_init (Some []) (Some []) restrictions (Some []);
  let cuts := default [] (cell_restrictions right !! cube_name cube) in
  let any_cuts := default [] (cell_restrictions right !! ALL_CUBES_WILDCARD) in
  let cuts := if truthy_list any_cuts then cuts ++ any_cuts else cuts in
  restriction ←
    (if truthy_list cuts then
       restriction_cuts ← restricted_cell_loop cube cuts [];
       Ok {| cube := cube; cuts := restriction_cuts |}
     else Ok (Cell_of_cube cube));
  match cell with
  | Some cell => Ok (cell_and cell restriction)
  | None => Ok restriction
  end.

(** [hierarchy_limits(identity, cube)] *)
Definition hierarchy_limits_of (self : DematAuthorizer) (identity : string)
    (cube : Cube) : result (list Limit) :=
  data ← _rightRequest self identity (hierarchy_limits_method self)
           (ArgCube cube);
  limits ← data_get hierarchy_limits_field data;
  right ← DematAccessRight_init (Some []) (Some []) (Some ∅) limits;
  Ok (default [] (hierarchy_limits right !! str cube)).

End Authorizer.

End CustomAuth.

(** ** [cubes/sql/utils.py] *)

Module SqlUtils.

(** A column expression of the statement builder: a labelled column, or
    one wrapped by [.asc()] or [.desc()]. *)
Inductive Column : Type :=
  | NamedColumn (name : string)
  | Asc (c : Column)
  | Desc (c : Column).

Fixpoint column_key (c : Column) : string :=
  match c with
  | NamedColumn n => n
  | Asc c | Desc c => column_key c
  end.

(** A select statement, as far as ordering is concerned: the selected
    columns and the ORDER BY list. *)
Record Statement : Type := {
  stmt_columns : list Column;
  stmt_order_by : list Column
}.

(** [name in statement.columns] *)
Definition has_column (name : string) (statement : Statement) : bool :=
  any (λ c, String.eqb (column_key c) name) (stmt_columns statement).

(** [statement.order_by] applied to the unpacked clauses: a statement with
    the clauses added to its ORDER BY list. *)
Definition order_by (statement : Statement) (clauses : list Column)
  : Statement :=
  {| stmt_columns := stmt_columns statement;
     stmt_order_by := stmt_order_by statement ++ clauses |}.

(** An [OrderedDict] with string keys: the items in insertion order. *)
Definition OrderedDict (V : Type) : Type := list (string * V).

Definition od_mem {V} (k : string) (d : OrderedDict V) : bool :=
  any (λ kv, String.eqb (fst kv) k) d.

(** [d[k]] *)
Fixpoint od_get {V} (k : string) (d : OrderedDict V) : result V :=
  match d with
  | [] => Raise (KeyError k)
  | (k', v) :: rest => if String.eqb k' k then Ok v else od_get k rest
  end.

(** [d[k] = v]: a key already present keeps its place. *)
Fixpoint od_set {V} (k : string) (v : V) (d : OrderedDict V)
  : OrderedDict V :=
  match d with
  | [] => [(k, v)]
  | (k', v') :: rest =>
      if String.eqb k' k then (k, v) :: rest else (k', v') :: od_set k v rest
  end.

(** [OrderedDict(pairs)] *)
Definition od_of_pairs {V} (pairs : list (string * V)) : OrderedDict V :=
  foldl (λ d kv, od_set (fst kv) (snd kv) d) [] pairs.

Definition od_values {V} (d : OrderedDict V) : list V := map snd d.

(** [order_column(column, order)].  In the last branch the operand of
    [raise] is [ArgumentError("...") % (order, column)]; the module does
    not import [ArgumentError], so evaluating that name is what raises. *)
Definition order_column (column : Column) (order : option string)
  : result Column :=
  if negb (truthy_str (default "" order)) then Ok column
  else if startswith (lower (default "" order)) "asc" then Ok (Asc column)
  else if startswith (lower (default "" order)) "desc" then Ok (Desc column)
  else
    _ ← (unbound "ArgumentError" : result unit);
    Raise (TypeError "unsupported operand type(s) for %").

Section Browser.

(** [SPLIT_DIMENSION_NAME] is imported from [cubes.browser], which is not
    among the sources. *)
Variable SPLIT_DIMENSION_NAME : string.

(** The loop over the explicit order: [for attribute, direction in order]. *)
Fixpoint order_query_explicit (columns : OrderedDict Column)
    (order : list (string * option string))
    (final_order : OrderedDict Column) : result (OrderedDict Column) :=
  match order with
  | [] => Ok final_order
  | (attribute, direction) :: rest =>
      let attribute := str attribute in
      selected ← od_get attribute columns;
      column ← order_column selected direction;
      let final_order :=
        if negb (od_mem attribute final_order)
        then od_set attribute column final_order else final_order in
      order_query_explicit columns rest final_order
  end.

(** The loop over the selected columns:
    [for (name, column) in columns.items()].  The condition reads
    [order_by], a name that is bound nowhere, once [name in natural_order]
    holds. *)
Fixpoint order_query_natural (items : list (string * Column))
    (natural_order : gmap string (option string))
    (final_order : OrderedDict Column) : result (OrderedDict Column) :=
  match items with
  | [] => Ok final_order
  | (name, column) :: rest =>
      cond ←
        (if bool_decide (is_Some (natural_order !! name)) then
           order_by ← (unbound "order_by" : result (list string));
           Ok (negb (bool_decide (name ∈ order_by)))
         else Ok false);
      final_order ←
        (if cond : bool then
           ordered ← order_column column (default None (natural_order !! name));
           Ok (od_set name ordered final_order)
         else Ok final_order);
      order_query_natural rest natural_order final_order
  end.

(** [order_query(statement, order, natural_order=None, labels=None)] *)
Definition order_query (statement : Statement)
    (order : option (list (string * option string)))
    (natural_order : option (gmap string (option string)))
    (labels : option (list string)) : result Statement :=
  let order := default [] order in
  let labels := default [] labels in
  let natural_order := default ∅ natural_order in
  let final_order : OrderedDict Column := [] in
  let columns := od_of_pairs (zip labels (stmt_columns statement)) in
  let final_order :=
    if has_column SPLIT_DIMENSION_NAME statement
    then od_set SPLIT_DIMENSION_NAME (NamedColumn SPLIT_DIMENSION_NAME)
           final_order
    else final_order in
  final_order ← order_query_explicit columns order final_order;
  final_order ← order_query_natural columns natural_order final_order;
  Ok (order_by statement (od_values final_order)).

End Browser.

(** [cut.dimension.info.get('type', None) == 'Permission'] *)
Definition is_permission_cut (cut : Cut) : bool :=
  bool_decide (info (dimension cut) !! "type" = Some "Permission").

(** [cut in cuts] *)
Definition in_cuts (cut : Cut) (l : list Cut) : bool :=
  bool_decide (cut ∈ l).

(** [extract_permissions_from_cell(cell)].  Inside [if permissions_cuts]
    the auxiliary cell is dereferenced; were it [None] there, that would
    raise. *)
Definition extract_permissions_from_cell (cell : option Cell)
  : result (option Cell * option Cell) :=
  let aux_cell :=
    if truthy_cell cell
    then (λ c, {| cube := cube c; cuts := cuts c |}) <$> cell
    else None in
  let permissions_cell : option Cell := None in
  let permissions_cuts :=
    match aux_cell with
    | Some aux => filter (λ cut, is_permission_cut cut = true) (cuts aux)
    | None => []
    end in
  if truthy_list permissions_cuts then
    match aux_cell with
    | Some aux =>
        let permissions_cell :=
          {| cube := cube aux; cuts := permissions_cuts |} in
        let aux :=
          {| cube := cube aux;
             cuts := filter (λ cut, in_cuts cut (cuts permissions_cell) = false)
                       (cuts aux) |} in
        Ok (Some aux, Some permissions_cell)
    | None => Raise (AttributeError "cube")
    end
  else Ok (aux_cell, permissions_cell).

(** A statement with the row window set on it by [.offset()] and
    [.limit()]; [None] where the statement sets none. *)
Record Paged : Type := {
  paged_statement : Statement;
  paged_offset : option Z;
  paged_limit : option Z
}.

(** [paginate_query(statement, page, page_size)] *)
Definition paginate_query (statement : Paged) (page page_size : option Z)
  : Paged :=
  match page, page_size with
  | Some page, Some page_size =>
      {| paged_statement := paged_statement statement;
         paged_offset := Some (page * page_size)%Z;
         paged_limit := Some page_size |}
  | _, _ => statement
  end.

End SqlUtils.

(** ** The vocabulary of the specification and of the statements below *)

Module Spec.

Import CustomAuth.

(** The allow match as the specification words it: the name is an entry of
    the allowed set, or the set holds the universal wildcard, or the name
    matches one of the registered prefix or suffix patterns. *)
Definition allowMatch (self : DematAccessRight) (name : string) : bool :=
  in_set name (allowed_cubes self)
  || in_set ALL_CUBES_WILDCARD (allowed_cubes self)
  || any (λ p, startswith name p) (allowed_cube_prefix self)
  || any (λ p, endswith name p) (allowed_cube_suffix self).

(** The deny match: the same procedure against the denied set. *)
Definition denyMatch (self : DematAccessRight) (name : string) : bool :=
  in_set name (denied_cubes self)
  || in_set ALL_CUBES_WILDCARD (denied_cubes self)
  || any (λ p, startswith name p) (denied_cube_prefix self)
  || any (λ p, endswith name p) (denied_cube_suffix self).

(** The set a constructor argument denotes. *)
Definition set_of (cubes : option (list string)) : gset string :=
  list_to_set (default [] cubes).

(** The object [__init__] leaves behind: the sets hold the entries given,
    and the four pattern lists are those [_get_patterns] extracts. *)
Record constructed (allowed denied : option (list string))
    (restrictions : option (gmap string (list json)))
    (self : DematAccessRight) : Prop := {
  constructed_allowed : allowed_cubes self = set_of allowed;
  constructed_denied : denied_cubes self = set_of denied;
  constructed_restrictions : cell_restrictions self = default ∅ restrictions;
  constructed_allowed_patterns :
    (allowed_cube_suffix self, allowed_cube_prefix self)
    = get_patterns_loop (elements (allowed_cubes self)) [] [];
  constructed_denied_patterns :
    (denied_cube_suffix self, denied_cube_prefix self)
    = get_patterns_loop (elements (denied_cubes self)) [] []
}.

(** The allow flag as a function of the allowed set alone. *)
Definition allow_flag_of (allowed : gset string) (name : string) : bool :=
  let '(suffix, prefix) := get_patterns_loop (elements allowed) [] [] in
  in_set name allowed
  || in_set ALL_CUBES_WILDCARD allowed
  || any (λ p, startswith name p) prefix
  || any (λ p, endswith name p) suffix.

(** The cuts of a cell that may be [None]. *)
Definition cuts_of (cell : option Cell) : list Cut :=
  from_option cuts [] cell.

Inductive Precedence : Type := AllowThenDeny | DenyThenAllow.

(** [allow_after_denied] is true for the order [deny_allow]. *)
Definition precedence_of (allow_after_denied : bool) : Precedence :=
  if allow_after_denied then DenyThenAllow else AllowThenDeny.

(** The truth table, row by row; [true] stands for allow. *)
Definition truth_table (p : Precedence) (allowMatch denyMatch : bool) : bool :=
  match allowMatch, denyMatch, p with
  | true, false, DenyThenAllow => true
  | true, false, AllowThenDeny => true
  | false, true, DenyThenAllow => false
  | false, true, AllowThenDeny => false
  | false, false, DenyThenAllow => true
  | false, false, AllowThenDeny => false
  | true, true, DenyThenAllow => true
  | true, true, AllowThenDeny => false
  end.

End Spec.

(** ** Reference formulations the loops are compared with *)

Module Reference.

Import CustomAuth SqlUtils.

Section Parsers.
Context `{ModelParsers}.

(** How one cut specification is resolved: the string form by
    [cut_from_string], any other form by [cut_from_dict]. *)
Definition resolve_cut (cube : Cube) (spec : json) : result Cut :=
  match spec with
  | JString s => cut_from_string s cube
  | j => cut_from_dict j
  end.

(** How one hierarchy limit is resolved: a string by
    [string_to_dimension_level], anything else kept as it is. *)
Definition resolve_limit (limit : json) : result Limit :=
  match limit with
  | JString s =>
      '(d, h, l) ← string_to_dimension_level s;
      Ok (LimitLevel d h l)
  | j => Ok (LimitRaw j)
  end.

End Parsers.

(** The limits the items register under one cube name, in their order. *)
Fixpoint limits_registered (name : string) (items : list (string * list json))
  : list json :=
  match items with
  | [] => []
  | (cube, limits) :: rest =>
      if String.eqb cube name then limits ++ limits_registered name rest
      else limits_registered name rest
  end.

(** The access right [__init__] would build if iterating the two sets
    yielded their elements in the given orders. *)
Definition access_right_iterating (allowed_order denied_order : list string)
    (allowed denied : gset string) : DematAccessRight :=
  let '(allowed_suffix, allowed_prefix) :=
    get_patterns_loop allowed_order [] [] in
  let '(denied_suffix, denied_prefix) :=
    get_patterns_loop denied_order [] [] in
  {| cell_restrictions := ∅;
     hierarchy_limits := ∅;
     allowed_cubes := allowed;
     denied_cubes := denied;
     allowed_cube_suffix := allowed_suffix;
     allowed_cube_prefix := allowed_prefix;
     denied_cube_suffix := denied_suffix;
     denied_cube_prefix := denied_prefix |}.

(** Row [i] (counted from 0) is inside the window of a statement. *)
Definition in_window (statement : Paged) (i : Z) : Prop :=
  (default 0 (paged_offset statement) ≤ i)%Z
  ∧ match paged_limit statement with
    | Some limit => (i < default 0 (paged_offset statement) + limit)%Z
    | None => True
    end.

(** A name matches a list of entries: it is an entry, or the universal
    wildcard is one, or an entry [p*] gives a prefix [p] of the name, or an
    entry [*p] gives a suffix [p] of the name. *)
Definition matches_entries (entries : list string) (name : string) : Prop :=
  name ∈ entries
  ∨ ALL_CUBES_WILDCARD ∈ entries
  ∨ (∃ p rest, p +:+ "*" ∈ entries ∧ name = p +:+ rest)
  ∨ (∃ p rest, "*" +:+ p ∈ entries ∧ name = rest +:+ p).

(** The access right with the roles of the allowed and the denied entries
    exchanged. *)
Definition exchanged (self : DematAccessRight) : DematAccessRight :=
  {| cell_restrictions := cell_restrictions self;
     hierarchy_limits := hierarchy_limits self;
     allowed_cubes := denied_cubes self;
     denied_cubes := allowed_cubes self;
     allowed_cube_suffix := denied_cube_suffix self;
     allowed_cube_prefix := denied_cube_prefix self;
     denied_cube_suffix := allowed_cube_suffix self;
     denied_cube_prefix := allowed_cube_prefix self |}.

(** The cut specifications an answer registers for a cube: those under
    the cube's name, then those under the universal wildcard. *)
Definition registered_specs (data : RightsData) (cube : Cube) : list json :=
  let registered := default ∅ (cell_restrictions_field data) in
  default [] (registered !! cube_name cube)
  ++ default [] (registered !! ALL_CUBES_WILDCARD).

(** A restriction cell, intersected with the existing cell when there is
    one. *)
Definition with_existing (cell : option Cell) (restriction : Cell) : Cell :=
  match cell with
  | Some existing => cell_and existing restriction
  | None => restriction
  end.

(** A direction [order_column] accepts: none, the empty string, or a
    string that in lower case starts with [asc] or with [desc]. *)
Definition direction_known (direction : option string) : bool :=
  negb (truthy_str (default "" direction))
  || startswith (lower (default "" direction)) "asc"
  || startswith (lower (default "" direction)) "desc".

(** The ordering term of one pair of the explicit order: the column the
    attribute labels, ordered by the direction. *)
Definition ordering_term (columns : OrderedDict Column)
    (term : string * option string) : result Column :=
  selected ← od_get (fst term) columns;
  order_column selected (snd term).

(** The keys of an [OrderedDict]. *)
Definition od_keys {V} (d : OrderedDict V) : list string := map fst d.

End Reference.

(** ** Sample collaborators and data *)

Module Samples.

Import CustomAuth SqlUtils.

(** A provider that answers every request with the same payload. *)
Definition http_answering (p : Payload) : Http :=
  {| opener_open := λ _ _, Ok "body";
     json_load := λ _, Ok p |}.

(** A provider that cannot be reached, one that answers with a server
    error, and one whose body is not JSON. *)
Definition http_unreachable : Http :=
  {| opener_open := λ _ _, Raise (URLError "connection refused");
     json_load := λ _, Ok (PNotObject JNull) |}.

Definition http_server_error : Http :=
  {| opener_open := λ _ _, Raise (HTTPError 500);
     json_load := λ _, Ok (PNotObject JNull) |}.

Definition http_not_json : Http :=
  {| opener_open := λ _ _, Ok "<html>";
     json_load := λ _, Raise JSONDecodeError |}.

Fixpoint json_member (k : string) (members : list (string * json))
  : option json :=
  match members with
  | [] => None
  | (k', v) :: rest => if String.eqb k' k then Some v else json_member k rest
  end.

Fixpoint json_strings (items : list json) : list string :=
  match items with
  | [] => []
  | JString s :: rest => s :: json_strings rest
  | _ :: rest => json_strings rest
  end.

(** Parsers that build a cut directly from what they are given. *)
Definition sample_cut_from_dict (j : json) : result Cut :=
  match j with
  | JObject members =>
      match json_member "dimension" members, json_member "values" members with
      | Some (JString d), Some (JArray vs) =>
          Ok {| dimension := {| dim_name := d; info := ∅ |};
                values := json_strings vs;
                hidden := false |}
      | _, _ => Raise (KeyError "dimension")
      end
  | _ => Raise (AttributeError "get")
  end.

Definition sample_parsers : ModelParsers :=
  {| cut_from_string := λ s _,
       Ok {| dimension := {| dim_name := s; info := ∅ |};
             values := [];
             hidden := false |};
     cut_from_dict := sample_cut_from_dict;
     string_to_dimension_level := λ s,
       if truthy_str s then Ok (s, None, None)
       else Raise (ArgumentError "Drilldown string should not be empty") |}.

(** The rights of scenarios A and B. *)
Definition scenario_rights : RightsData :=
  {| allowed_cubes_field := Some ["sales"; "*_test"];
     denied_cubes_field := Some ["sales_test"];
     cell_restrictions_field := None;
     hierarchy_limits_field := None |}.

(** The access right the constructor builds from them. *)
Definition scenario_right : DematAccessRight :=
  {| cell_restrictions := ∅;
     hierarchy_limits := ∅;
     allowed_cubes := list_to_set ["sales"; "*_test"];
     denied_cubes := list_to_set ["sales_test"];
     allowed_cube_suffix := ["_test"];
     allowed_cube_prefix := [];
     denied_cube_suffix := [];
     denied_cube_prefix := [] |}.

(** Access rights built from one allowed entry each, and from the
    universal wildcard beside a denied prefix pattern. *)
Definition right_sales_star : DematAccessRight :=
  {| cell_restrictions := ∅;
     hierarchy_limits := ∅;
     allowed_cubes := list_to_set ["sales*"];
     denied_cubes := ∅;
     allowed_cube_suffix := [];
     allowed_cube_prefix := ["sales"];
     denied_cube_suffix := [];
     denied_cube_prefix := [] |}.

Definition right_star_eu : DematAccessRight :=
  {| cell_restrictions := ∅;
     hierarchy_limits := ∅;
     allowed_cubes := list_to_set ["*_eu"];
     denied_cubes := ∅;
     allowed_cube_suffix := ["_eu"];
     allowed_cube_prefix := [];
     denied_cube_suffix := [];
     denied_cube_prefix := [] |}.

Definition right_universal : DematAccessRight :=
  {| cell_restrictions := ∅;
     hierarchy_limits := ∅;
     allowed_cubes := list_to_set ["*"];
     denied_cubes := list_to_set ["tmp*"];
     allowed_cube_suffix := [""];
     allowed_cube_prefix := [""];
     denied_cube_suffix := [];
     denied_cube_prefix := ["tmp"] |}.

Definition scenario_cubes : list string :=
  ["sales"; "hr"; "sales_test"; "billing_test"].

(** The cut specification of scenario C and the payload that registers it
    under the universal wildcard only. *)
Definition region_eu : json :=
  JObject [("dimension", JString "region"); ("values", JArray [JString "EU"])].

Definition scenario_restrictions : RightsData :=
  {| allowed_cubes_field := None;
     denied_cubes_field := None;
     cell_restrictions_field := Some {[ ALL_CUBES_WILDCARD := [region_eu] ]};
     hierarchy_limits_field := None |}.

Definition region_eu_cut : Cut :=
  {| dimension := {| dim_name := "region"; info := ∅ |};
     values := ["EU"];
     hidden := false |}.

Definition sample_authorizer (allow_after_denied : bool) : DematAuthorizer :=
  {| url := "https://rights.example/api/";
     authorize_method := "authorize";
     restricted_cell_method := "restricted-cell";
     hierarchy_limits_method := "hierarchy-limits";
     allow_after_denied := allow_after_denied |}.

Definition cube_sales : Cube := {| cube_name := "sales" |}.
Definition cube_star : Cube := {| cube_name := "*" |}.

(** A cell of the user's own, with one visible cut. *)
Definition year_cut : Cut :=
  {| dimension := {| dim_name := "year"; info := ∅ |};
     values := ["2024"];
     hidden := false |}.

Definition user_cell : Cell := {| cube := cube_sales; cuts := [year_cut] |}.

(** A cut on a dimension that carries the permission tag. *)
Definition owner_cut : Cut :=
  {| dimension := {| dim_name := "owner"; info := {[ "type" := "Permission" ]} |};
     values := ["alice"];
     hidden := false |}.

Definition mixed_cell : Cell :=
  {| cube := cube_sales; cuts := [year_cut; owner_cut] |}.

(** An answer that registers nothing at all. *)
Definition empty_rights : RightsData :=
  {| allowed_cubes_field := None;
     denied_cubes_field := Some [];
     cell_restrictions_field := None;
     hierarchy_limits_field := None |}.

(** An answer whose only restriction is not a cut specification. *)
Definition broken_restrictions : RightsData :=
  {| allowed_cubes_field := None;
     denied_cubes_field := None;
     cell_restrictions_field :=
       Some {[ "sales" := [region_eu; JNumber 5; region_eu] ]};
     hierarchy_limits_field := None |}.

(** Answers with hierarchy limits: one whose limits all resolve, and one
    with an empty level string under another cube. *)
Definition scenario_limits : RightsData :=
  {| allowed_cubes_field := None;
     denied_cubes_field := None;
     cell_restrictions_field := None;
     hierarchy_limits_field :=
       Some [("sales", [JString "date"; JNumber 2]); ("hr", [JString "geo"])] |}.

Definition broken_limits : RightsData :=
  {| allowed_cubes_field := None;
     denied_cubes_field := None;
     cell_restrictions_field := None;
     hierarchy_limits_field :=
       Some [("sales", [JString "date"]); ("hr", [JString ""])] |}.

(** Statements to order: one that selects the year and the month, and one
    that selects the split column beside the year. *)
Definition split_name : string := "__within_split__".

Definition year_statement : Statement :=
  {| stmt_columns := [NamedColumn "year"; NamedColumn "month"];
     stmt_order_by := [] |}.

Definition split_statement : Statement :=
  {| stmt_columns := [NamedColumn split_name; NamedColumn "year"];
     stmt_order_by := [] |}.

End Samples.

(** * Properties *)

(** ** Facts about the Python helpers *)

Module PyFacts.

Lemma bind_Ok {A B} (a : A) (k : A → result B) : (Ok a ≫= k) = k a.
Proof. reflexivity. Qed.

Lemma bind_Raise {A B} (e : exn) (k : A → result B) :
  (Raise e ≫= k) = Raise e.
Proof. reflexivity. Qed.

(** [startswith] and [endswith] mean what their names say. *)
Lemma startswith_app (s p : string) :
  startswith s p = true ↔ ∃ rest, s = p +:+ rest.
Proof.
  revert s. induction p as [|c p IH]; intros s; simpl.
  - split; [eauto | done].
  - destruct s as [|d s].
    + split; [done | intros [rest Hrest]; discriminate].
    + rewrite andb_true_iff, Ascii.eqb_eq, IH. split.
      * intros [-> [rest ->]]. by exists rest.
      * intros [rest [= -> ->]]. eauto.
Qed.

Lemma app_String c (s t : string) : String c s +:+ t = String c (s +:+ t).
Proof. reflexivity. Qed.

Lemma length_app_string (s t : string) :
  String.length (s +:+ t) = String.length s + String.length t.
Proof. induction s as [|c s IH]; simpl; [done | by rewrite IH]. Qed.

Lemma substring_all (s : string) : substring 0 (String.length s) s = s.
Proof. induction s as [|c s IH]; simpl; [done | by rewrite IH]. Qed.

Lemma substring_app_r (s t : string) :
  substring (String.length s) (String.length t) (s +:+ t) = t.
Proof. induction s as [|c s IH]; simpl; [apply substring_all | done]. Qed.

Lemma substring_split (s : string) (k : nat) :
  (k ≤ String.length s)%nat →
  s = substring 0 k s +:+ substring k (String.length s - k) s.
Proof.
  revert k. induction s as [|c s IH]; intros [|k] Hk; simpl in *; try done.
  - by rewrite substring_all.
  - rewrite app_String. f_equal. apply IH. lia.
Qed.

Lemma endswith_app (s p : string) :
  endswith s p = true ↔ ∃ rest, s = rest +:+ p.
Proof.
  unfold endswith. cbv zeta.
  rewrite andb_true_iff, Nat.leb_le, String.eqb_eq. split.
  - intros [Hle Hsub].
    exists (substring 0 (String.length s - String.length p) s).
    pose proof (substring_split s (String.length s - String.length p))
      as Hsplit.
    replace (String.length s - (String.length s - String.length p))
      with (String.length p) in Hsplit by lia.
    rewrite Hsub in Hsplit. apply Hsplit. lia.
  - intros [rest ->]. rewrite length_app_string. split; [lia|].
    replace (String.length rest + String.length p - String.length p)
      with (String.length rest) by lia.
    apply substring_app_r.
Qed.

(** The two slices undo a star put in front or at the end. *)
Lemma slice_from_1_star (s : string) : slice_from_1 ("*" +:+ s) = s.
Proof. reflexivity. Qed.

Lemma slice_to_last_star (s : string) : slice_to_last (s +:+ "*") = s.
Proof.
  induction s as [|c s IH]; simpl; [done|]. rewrite IH.
  by destruct s.
Qed.

Lemma truthy_list_false {A} (l : list A) : truthy_list l = false ↔ l = [].
Proof. destruct l; simpl; split; congruence. Qed.

Lemma truthy_set_false (s : gset string) : truthy_set s = false ↔ s = ∅.
Proof.
  unfold truthy_set. rewrite truthy_list_false.
  rewrite elements_empty_iff. apply leibniz_equiv_iff.
Qed.

Lemma in_set_true x (s : gset string) : in_set x s = true ↔ x ∈ s.
Proof. unfold in_set. apply bool_decide_eq_true. Qed.

Lemma any_true {A} (f : A → bool) (l : list A) :
  any f l = true ↔ ∃ x, x ∈ l ∧ f x = true.
Proof.
  unfold any. rewrite existsb_exists.
  split; intros (x & Hx & Hf); exists x; split; auto;
    by apply list_elem_of_In.
Qed.

Lemma any_guarded {A} (f : A → bool) (l : list A) :
  (if truthy_list l then any f l else false) = any f l.
Proof. by destruct l. Qed.

End PyFacts.

(** ** [custom_auth.py]: the access right *)

Module AccessRightFacts.

Import CustomAuth Spec PyFacts.

(** What one loop of [_get_patterns] leaves in the suffix list. *)
Lemma get_patterns_loop_suffix cubes suffix prefix p :
  p ∈ (get_patterns_loop cubes suffix prefix).1 ↔
  p ∈ suffix ∨ ∃ c, c ∈ cubes ∧ startswith c "*" = true ∧ p = slice_from_1 c.
Proof.
  revert suffix prefix. induction cubes as [|c cubes IH]; intros suffix prefix.
  - simpl. setoid_rewrite elem_of_nil.
    split; [by left | intros [?|(c & [] & _)]; done].
  - cbn [get_patterns_loop]. rewrite IH. clear IH.
    destruct (startswith c "*") eqn:Hs.
    + rewrite elem_of_app, list_elem_of_singleton.
      setoid_rewrite elem_of_cons. split.
      * intros [[?| ->]|(c' & ? & ? & ?)];
          [by left | right; exists c; auto | right; exists c'; auto].
      * intros [?|(c' & [->|?] & ? & ->)];
          [by left; left | by left; right | right; exists c'; auto].
    + setoid_rewrite elem_of_cons. split.
      * intros [?|(c' & ? & ? & ?)]; [by left | right; exists c'; auto].
      * intros [?|(c' & [->|?] & ? & ->)];
          [by left | congruence | right; exists c'; auto].
Qed.

(** What it leaves in the prefix list. *)
Lemma get_patterns_loop_prefix cubes suffix prefix p :
  p ∈ (get_patterns_loop cubes suffix prefix).2 ↔
  p ∈ prefix ∨ ∃ c, c ∈ cubes ∧ endswith c "*" = true ∧ p = slice_to_last c.
Proof.
  revert suffix prefix. induction cubes as [|c cubes IH]; intros suffix prefix.
  - simpl. setoid_rewrite elem_of_nil.
    split; [by left | intros [?|(c & [] & _)]; done].
  - cbn [get_patterns_loop]. rewrite IH. clear IH.
    destruct (endswith c "*") eqn:Hs.
    + rewrite elem_of_app, list_elem_of_singleton.
      setoid_rewrite elem_of_cons. split.
      * intros [[?| ->]|(c' & ? & ? & ?)];
          [by left | right; exists c; auto | right; exists c'; auto].
      * intros [?|(c' & [->|?] & ? & ->)];
          [by left; left | by left; right | right; exists c'; auto].
    + setoid_rewrite elem_of_cons. split.
      * intros [?|(c' & ? & ? & ?)]; [by left | right; exists c'; auto].
      * intros [?|(c' & [->|?] & ? & ->)];
          [by left | congruence | right; exists c'; auto].
Qed.

Lemma set_of_truthy (cubes : option (list string)) :
  (if truthy_opt cubes then list_to_set (default [] cubes) else ∅) = set_of cubes.
Proof. by destruct cubes as [[|c l]|]. Qed.

Lemma init_constructed `{ModelParsers} allowed denied restrictions limits self :
  DematAccessRight_init allowed denied restrictions limits = Ok self →
  constructed allowed denied restrictions self.
Proof.
  unfold DematAccessRight_init. rewrite !set_of_truthy.
  destruct (if truthy_opt limits then _ else _) as [hl|e]; [|discriminate].
  rewrite bind_Ok. unfold _get_patterns.
  destruct (get_patterns_loop (elements (set_of allowed)) [] []) as [s1 p1] eqn:E1.
  destruct (get_patterns_loop (elements (set_of denied)) [] []) as [s2 p2] eqn:E2.
  intros [= <-]. by split.
Qed.

(** Without hierarchy limits the constructor cannot raise. *)
Lemma init_no_limits `{ModelParsers} allowed denied restrictions :
  ∃ self, DematAccessRight_init allowed denied restrictions (Some []) = Ok self.
Proof.
  unfold DematAccessRight_init, _get_patterns. rewrite !set_of_truthy. simpl.
  destruct (get_patterns_loop (elements (set_of allowed)) [] []) as [s1 p1].
  destruct (get_patterns_loop (elements (set_of denied)) [] []) as [s2 p2].
  eauto.
Qed.

(** The flags the code computes are the matches the specification
    describes, on every object the constructor built. *)
Lemma allow_flag_allowMatch allowed denied restrictions self name :
  constructed allowed denied restrictions self →
  allow_flag self name = allowMatch self name.
Proof.
  intros [_ _ _ Hp _]. unfold allow_flag, allowMatch.
  destruct (truthy_set (allowed_cubes self)) eqn:Hs.
  - destruct (in_set name _ || in_set ALL_CUBES_WILDCARD _); simpl; [done|].
    rewrite any_guarded.
    destruct (any (λ p, startswith name p) _); simpl; [done|].
    apply any_guarded.
  - apply truthy_set_false in Hs. rewrite Hs in *.
    rewrite elements_empty in Hp. simpl in Hp. injection Hp as -> ->.
    done.
Qed.

Lemma deny_flag_denyMatch allowed denied restrictions self name :
  constructed allowed denied restrictions self →
  deny_flag self name = denyMatch self name.
Proof.
  intros [_ _ _ _ Hp]. unfold deny_flag, denyMatch.
  destruct (truthy_set (denied_cubes self)) eqn:Hs.
  - destruct (in_set name _ || in_set ALL_CUBES_WILDCARD _); simpl; [done|].
    rewrite any_guarded.
    destruct (any (λ p, startswith name p) _); simpl; [done|].
    apply any_guarded.
  - apply truthy_set_false in Hs. rewrite Hs in *.
    rewrite elements_empty in Hp. simpl in Hp. injection Hp as -> ->.
    done.
Qed.

(** The pattern lists of a constructed access right, in terms of the
    entries it was built from. *)
Lemma constructed_prefix allowed denied restrictions self entries p :
  constructed allowed denied restrictions self → allowed = Some entries →
  p ∈ allowed_cube_prefix self ↔ p +:+ "*" ∈ entries.
Proof.
  intros [Ha _ _ Hp _] ->.
  replace (allowed_cube_prefix self) with
    (allowed_cube_suffix self, allowed_cube_prefix self).2 by done.
  rewrite Hp, get_patterns_loop_prefix, Ha. unfold set_of.
  cbn [from_option id].
  setoid_rewrite elem_of_elements. setoid_rewrite elem_of_list_to_set.
  split.
  - intros [Hin|(c & Hc & Hs & ->)]; [by apply elem_of_nil in Hin|].
    apply endswith_app in Hs as [rest ->].
    by rewrite slice_to_last_star.
  - intros Hin. right. exists (p +:+ "*"). split; [done|].
    split; [apply endswith_app; eauto | by rewrite slice_to_last_star].
Qed.

Lemma constructed_suffix allowed denied restrictions self entries p :
  constructed allowed denied restrictions self → allowed = Some entries →
  p ∈ allowed_cube_suffix self ↔ "*" +:+ p ∈ entries.
Proof.
  intros [Ha _ _ Hp _] ->.
  replace (allowed_cube_suffix self) with
    (allowed_cube_suffix self, allowed_cube_prefix self).1 by done.
  rewrite Hp, get_patterns_loop_suffix, Ha. unfold set_of.
  cbn [from_option id].
  setoid_rewrite elem_of_elements. setoid_rewrite elem_of_list_to_set.
  split.
  - intros [Hin|(c & Hc & Hs & ->)]; [by apply elem_of_nil in Hin|].
    by apply startswith_app in Hs as [rest ->].
  - intros Hin. right. exists ("*" +:+ p). split; [done|].
    split; [apply startswith_app; eauto | done].
Qed.

(** The allow match in terms of the entries: the name is an entry, or the
    universal wildcard is one, or some entry [p*] has [p] as a prefix of
    the name, or some entry [*p] has [p] as a suffix of the name. *)
Lemma allowMatch_entries allowed denied restrictions self entries name :
  constructed allowed denied restrictions self → allowed = Some entries →
  allowMatch self name = true ↔
  name ∈ entries
  ∨ ALL_CUBES_WILDCARD ∈ entries
  ∨ (∃ p rest, p +:+ "*" ∈ entries ∧ name = p +:+ rest)
  ∨ (∃ p rest, "*" +:+ p ∈ entries ∧ name = rest +:+ p).
Proof.
  intros Hc Ha. unfold allowMatch.
  rewrite !orb_true_iff, !in_set_true, !any_true.
  setoid_rewrite (constructed_prefix _ _ _ _ _ _ Hc Ha).
  setoid_rewrite (constructed_suffix _ _ _ _ _ _ Hc Ha).
  setoid_rewrite startswith_app. setoid_rewrite endswith_app.
  destruct Hc as [-> _ _ _ _]. subst allowed. unfold set_of.
  cbn [from_option id]. rewrite !elem_of_list_to_set.
  split.
  - intros [[[?|?]|(p & ? & rest & ?)]|(p & ? & rest & ?)]; eauto 8.
  - intros [?|[?|[(p & rest & ? & ?)|(p & rest & ? & ?)]]]; eauto 8.
Qed.

(** C1: for every access right the constructor builds, every cube name and
    both precedence modes, [is_allowed] returns the entry of the truth table
    at the row given by the allow match and the deny match: allow match or
    no deny match under deny-then-allow, allow match and no deny match under
    allow-then-deny. *)
Theorem is_allowed_truth_table `{ModelParsers}
    allowed denied restrictions limits self name :
  DematAccessRight_init allowed denied restrictions limits = Ok self →
  (∀ allow_after_denied,
     is_allowed self name allow_after_denied
     = truth_table (precedence_of allow_after_denied)
         (allowMatch self name) (denyMatch self name))
  ∧ is_allowed self name true = allowMatch self name || negb (denyMatch self name)
  ∧ is_allowed self name false = allowMatch self name && negb (denyMatch self name).
Proof.
  intros Hinit. apply init_constructed in Hinit.
  unfold is_allowed.
  rewrite (allow_flag_allowMatch _ _ _ _ _ Hinit).
  rewrite (deny_flag_denyMatch _ _ _ _ _ Hinit).
  split; [|done].
  intros [|]; by destruct (allowMatch self name), (denyMatch self name).
Qed.

Lemma is_allowed_truth_table_witness :
  DematAccessRight_init (H := Samples.sample_parsers)
    (Some ["sales"; "*_test"]) (Some ["sales_test"]) None None
  = Ok Samples.scenario_right
  ∧ ((∀ allow_after_denied,
        is_allowed Samples.scenario_right "sales_test" allow_after_denied
        = truth_table (precedence_of allow_after_denied)
            (allowMatch Samples.scenario_right "sales_test")
            (denyMatch Samples.scenario_right "sales_test"))
     ∧ is_allowed Samples.scenario_right "sales_test" true
       = allowMatch Samples.scenario_right "sales_test"
         || negb (denyMatch Samples.scenario_right "sales_test")
     ∧ is_allowed Samples.scenario_right "sales_test" false
       = allowMatch Samples.scenario_right "sales_test"
         && negb (denyMatch Samples.scenario_right "sales_test")).
Proof.
  split; [vm_compute; reflexivity|].
  apply (is_allowed_truth_table (H := Samples.sample_parsers)
           (Some ["sales"; "*_test"]) (Some ["sales_test"]) None None).
  vm_compute; reflexivity.
Defined.

(** Every row of the table occurs: with the allowed entries [sales] and
    [*_test] and the denied entries [sales_test] and [tmp*], the four names
    below give the four combinations of allow match and deny match. *)
Example truth_table_rows_occur :
  let self :=
    {| cell_restrictions := ∅; hierarchy_limits := ∅;
       allowed_cubes := list_to_set ["sales"; "*_test"];
       denied_cubes := list_to_set ["sales_test"; "tmp*"];
       allowed_cube_suffix := ["_test"]; allowed_cube_prefix := [];
       denied_cube_suffix := []; denied_cube_prefix := ["tmp"] |} in
  DematAccessRight_init (H := Samples.sample_parsers)
    (Some ["sales"; "*_test"]) (Some ["sales_test"; "tmp*"]) None None = Ok self
  ∧ map (λ n, (allowMatch self n, denyMatch self n,
               is_allowed self n true, is_allowed self n false))
      ["sales"; "tmp_x"; "hr"; "sales_test"]
    = [(true, false, true, true); (false, true, false, false);
       (false, false, true, false); (true, true, true, false)].
Proof. vm_compute. split; reflexivity. Qed.

Lemma allow_flag_constructed allowed denied restrictions self name :
  constructed allowed denied restrictions self →
  allow_flag self name = allow_flag_of (set_of allowed) name.
Proof.
  intros Hc. rewrite (allow_flag_allowMatch _ _ _ _ _ Hc).
  destruct Hc as [Ha _ _ Hp _]. unfold allowMatch, allow_flag_of.
  rewrite Ha in *. by rewrite <- Hp.
Qed.

Lemma suffix_registered (entries : list string) (patterns : gset string) c :
  patterns = list_to_set entries → c ∈ entries → startswith c "*" = true →
  slice_from_1 c ∈ (get_patterns_loop (elements patterns) [] []).1.
Proof.
  intros -> Hc Hs. apply get_patterns_loop_suffix. right. exists c.
  by rewrite elem_of_elements, elem_of_list_to_set.
Qed.

Lemma prefix_registered (entries : list string) (patterns : gset string) c :
  patterns = list_to_set entries → c ∈ entries → endswith c "*" = true →
  slice_to_last c ∈ (get_patterns_loop (elements patterns) [] []).2.
Proof.
  intros -> Hc Hs. apply get_patterns_loop_prefix. right. exists c.
  by rewrite elem_of_elements, elem_of_list_to_set.
Qed.

(** C4: on the access right the constructor builds, the allowed entry
    [sales*] makes [sales_eu] match; the allowed entry [*_eu] makes
    [sales_eu] match and [sales_us] not; the universal wildcard among the
    allowed entries makes every name match; and every allowed or denied
    entry that begins with a star has its remainder in the suffix list,
    every entry that ends with a star has its prefix in the prefix list. *)
Theorem wildcard_admissibility `{ModelParsers}
    allowed denied restrictions limits self :
  DematAccessRight_init allowed denied restrictions limits = Ok self →
  (allowed = Some ["sales*"] → allow_flag self "sales_eu" = true)
  ∧ (allowed = Some ["*_eu"] →
     allow_flag self "sales_eu" = true ∧ allow_flag self "sales_us" = false)
  ∧ (∀ entries name,
       allowed = Some entries → ALL_CUBES_WILDCARD ∈ entries →
       allow_flag self name = true)
  ∧ (∀ entries c,
       allowed = Some entries → c ∈ entries →
       (startswith c "*" = true → slice_from_1 c ∈ allowed_cube_suffix self)
       ∧ (endswith c "*" = true → slice_to_last c ∈ allowed_cube_prefix self))
  ∧ (∀ entries c,
       denied = Some entries → c ∈ entries →
       (startswith c "*" = true → slice_from_1 c ∈ denied_cube_suffix self)
       ∧ (endswith c "*" = true → slice_to_last c ∈ denied_cube_prefix self)).
Proof.
  intros Hinit. apply init_constructed in Hinit.
  split; [|split; [|split; [|split; intros entries c -> Hc; split; intros Hs]]].
  - intros ->. by rewrite (allow_flag_constructed _ _ _ _ _ Hinit).
  - intros ->. by rewrite !(allow_flag_constructed _ _ _ _ _ Hinit).
  - intros entries name -> Hw.
    rewrite (allow_flag_allowMatch _ _ _ _ _ Hinit). unfold allowMatch.
    destruct Hinit as [Ha _ _ _ _]. rewrite Ha.
    assert (in_set ALL_CUBES_WILDCARD (set_of (Some entries)) = true) as ->.
    { apply in_set_true. by apply elem_of_list_to_set. }
    by rewrite orb_true_r.
  - destruct Hinit as [Ha _ _ Hp _].
    replace (allowed_cube_suffix self) with
      (allowed_cube_suffix self, allowed_cube_prefix self).1 by done.
    rewrite Hp. by apply suffix_registered with entries.
  - destruct Hinit as [Ha _ _ Hp _].
    replace (allowed_cube_prefix self) with
      (allowed_cube_suffix self, allowed_cube_prefix self).2 by done.
    rewrite Hp. by apply prefix_registered with entries.
  - destruct Hinit as [_ Hd _ _ Hp].
    replace (denied_cube_suffix self) with
      (denied_cube_suffix self, denied_cube_prefix self).1 by done.
    rewrite Hp. by apply suffix_registered with entries.
  - destruct Hinit as [_ Hd _ _ Hp].
    replace (denied_cube_prefix self) with
      (denied_cube_suffix self, denied_cube_prefix self).2 by done.
    rewrite Hp. by apply prefix_registered with entries.
Qed.

Lemma wildcard_admissibility_witness :
  (DematAccessRight_init (H := Samples.sample_parsers)
     (Some ["sales*"]) None None None = Ok Samples.right_sales_star
   ∧ allow_flag Samples.right_sales_star "sales_eu" = true)
  ∧ (DematAccessRight_init (H := Samples.sample_parsers)
       (Some ["*_eu"]) None None None = Ok Samples.right_star_eu
     ∧ allow_flag Samples.right_star_eu "sales_eu" = true
     ∧ allow_flag Samples.right_star_eu "sales_us" = false)
  ∧ (DematAccessRight_init (H := Samples.sample_parsers)
       (Some ["*"]) (Some ["tmp*"]) None None = Ok Samples.right_universal
     ∧ allow_flag Samples.right_universal "billing" = true
     ∧ slice_from_1 "*" ∈ allowed_cube_suffix Samples.right_universal
     ∧ slice_to_last "*" ∈ allowed_cube_prefix Samples.right_universal
     ∧ slice_to_last "tmp*" ∈ denied_cube_prefix Samples.right_universal).
Proof.
  pose proof (wildcard_admissibility (H := Samples.sample_parsers)
                (Some ["sales*"]) None None None Samples.right_sales_star
                ltac:(vm_compute; reflexivity)) as (H1 & _).
  pose proof (wildcard_admissibility (H := Samples.sample_parsers)
                (Some ["*_eu"]) None None None Samples.right_star_eu
                ltac:(vm_compute; reflexivity)) as (_ & H2 & _).
  pose proof (wildcard_admissibility (H := Samples.sample_parsers)
                (Some ["*"]) (Some ["tmp*"]) None None Samples.right_universal
                ltac:(vm_compute; reflexivity)) as (_ & _ & H3 & H4 & H5).
  split; [split; [vm_compute; reflexivity | exact (H1 eq_refl)]|].
  split; [split; [vm_compute; reflexivity | exact (H2 eq_refl)]|].
  split; [vm_compute; reflexivity|].
  split; [apply (H3 ["*"]); [reflexivity | apply list_elem_of_here]|].
  split; [apply (H4 ["*"] "*"); [reflexivity | apply list_elem_of_here
                                | reflexivity]|].
  split; [apply (H4 ["*"] "*"); [reflexivity | apply list_elem_of_here
                                | reflexivity]|].
  apply (H5 ["tmp*"] "tmp*"); [reflexivity | apply list_elem_of_here
                              | reflexivity].
Defined.

End AccessRightFacts.

(** ** [custom_auth.py]: the authorizer *)

Module AuthorizerFacts.

Import CustomAuth Spec PyFacts AccessRightFacts.

Section WithCollaborators.
Context `{Http} `{ModelParsers}.

(** The request raises exactly when the transport does or, the body being
    there, when decoding it does. *)
Lemma rightRequest_raises self identity method cube e :
  _rightRequest self identity method cube = Raise e ↔
  let url := url self +:+ method +:+ "/" in
  let url := if truthy_arg cube then url +:+ "?cube=" +:+ str cube else url in
  let addheaders := [("Authorization", "Token " +:+ identity)] in
  opener_open addheaders url = Raise e
  ∨ ∃ body, opener_open addheaders url = Ok body ∧ json_load body = Raise e.
Proof.
  unfold _rightRequest. cbv zeta.
  destruct (opener_open _ _) as [body|e'].
  - rewrite bind_Ok. split; [eauto|].
    intros [?|(body' & [= <-] & ?)]; [discriminate | done].
  - rewrite bind_Raise. split; [intros [= ->]; auto|].
    intros [[= ->]|(body' & ? & _)]; [done | discriminate].
Qed.

(** The loop of [authorize] keeps the candidates that pass, in their
    order. *)
Lemma authorize_loop_filter {A} `{Str A} right allow_after_denied
    (cubes authorized : list A) :
  authorize_loop right allow_after_denied cubes authorized
  = authorized
    ++ List.filter (λ cube, is_allowed right (str cube) allow_after_denied)
         cubes.
Proof.
  revert authorized. induction cubes as [|cube cubes IH]; intros authorized.
  - simpl. by rewrite app_nil_r.
  - simpl. rewrite IH.
    destruct (is_allowed right (str cube) allow_after_denied); [|done].
    by rewrite <- app_assoc.
Qed.

(** [authorize] once the rights were fetched. *)
Lemma authorize_fetched {A} `{Str A} self identity (cubes : list A) data :
  _rightRequest self identity (authorize_method self) ArgNone
  = Ok (PObject data) →
  authorize self identity cubes
  = match DematAccessRight_init (allowed_cubes_field data)
            (denied_cubes_field data) (Some ∅) (Some []) with
    | Ok r => authorize_loop r (allow_after_denied self) cubes []
    | Raise _ => []
    end.
Proof. intros Hreq. unfold authorize. by rewrite Hreq. Qed.

(** C2: when the rights fetch raises, whatever the exception, [authorize]
    returns the empty list, while [restricted_cell] and [hierarchy_limits]
    raise that same exception. *)
Theorem fetch_failure_asymmetry {A} `{Str A} self identity
    (cubes : list A) cube cell e :
  (_rightRequest self identity (authorize_method self) ArgNone = Raise e →
   authorize self identity cubes = [])
  ∧ (_rightRequest self identity (restricted_cell_method self)
       (ArgName (cube_name cube)) = Raise e →
     restricted_cell self identity cube cell = Raise e)
  ∧ (_rightRequest self identity (hierarchy_limits_method self)
       (ArgCube cube) = Raise e →
     hierarchy_limits_of self identity cube = Raise e).
Proof.
  split; [|split]; intros Hreq.
  - unfold authorize. by rewrite Hreq.
  - unfold restricted_cell. by rewrite Hreq.
  - unfold hierarchy_limits_of. by rewrite Hreq.
Qed.

(** What the configured order makes of [allow_after_denied]. *)
Lemma init_order url am rm hm order self :
  DematAuthorizer_init url am rm hm order = Ok self →
  (order = Some "deny_allow" → allow_after_denied self = true)
  ∧ (order = Some "allow_deny" → allow_after_denied self = false)
  ∧ (order = None → allow_after_denied self = true)
  ∧ authorize_method self = am.
Proof.
  unfold DematAuthorizer_init.
  destruct (truthy_str (default "" url)); [|discriminate].
  rewrite bind_Ok. cbv zeta. intros Hinit.
  split; [|split; [|split]].
  - intros ->. cbn in Hinit. by injection Hinit as <-.
  - intros ->. cbn in Hinit. by injection Hinit as <-.
  - intros ->. cbn in Hinit. by injection Hinit as <-.
  - destruct (String.eqb _ "allow_deny");
      [rewrite bind_Ok in Hinit; by injection Hinit as <-|].
    destruct (String.eqb _ "deny_allow");
      [rewrite bind_Ok in Hinit; by injection Hinit as <-|].
    discriminate.
Qed.

(** C3: with the allowed entries [sales] and [*_test], the denied entry
    [sales_test] and the candidates [sales], [hr], [sales_test],
    [billing_test], an authorizer configured with the order [deny_allow]
    returns all four candidates in their order, and one configured with
    [allow_deny] returns [sales] and [billing_test]. *)
Theorem authorize_scenarios url am rm hm order self identity data :
  DematAuthorizer_init url am rm hm order = Ok self →
  _rightRequest self identity (authorize_method self) ArgNone
  = Ok (PObject data) →
  allowed_cubes_field data = Some ["sales"; "*_test"] →
  denied_cubes_field data = Some ["sales_test"] →
  (order = Some "deny_allow" →
   authorize self identity ["sales"; "hr"; "sales_test"; "billing_test"]
   = ["sales"; "hr"; "sales_test"; "billing_test"])
  ∧ (order = Some "allow_deny" →
     authorize self identity ["sales"; "hr"; "sales_test"; "billing_test"]
     = ["sales"; "billing_test"]).
Proof.
  intros Hinit Hreq Ha Hd.
  destruct (init_order _ _ _ _ _ _ Hinit) as (Hda & Had & _ & _).
  rewrite (authorize_fetched _ _ _ _ Hreq), Ha, Hd.
  split; intros Ho.
  - rewrite (Hda Ho). vm_compute. reflexivity.
  - rewrite (Had Ho). vm_compute. reflexivity.
Qed.

(** The loop of [restricted_cell] appends one cut per specification, each
    marked hidden. *)
Lemma restricted_cell_loop_hidden cube specs restriction_cuts r :
  restricted_cell_loop cube specs restriction_cuts = Ok r →
  ∃ new_cuts,
    r = restriction_cuts ++ new_cuts
    ∧ Forall (λ cut, hidden cut = true) new_cuts
    ∧ length new_cuts = length specs.
Proof.
  revert restriction_cuts.
  induction specs as [|spec specs IH]; intros restriction_cuts; simpl.
  - intros [= <-]. exists []. by rewrite app_nil_r.
  - destruct (match spec with JString s => _ | _ => _ end) as [cut|e];
      [|discriminate].
    rewrite bind_Ok. intros Hloop.
    destruct (IH _ Hloop) as (new_cuts & -> & Hh & Hl).
    exists (set_hidden cut :: new_cuts).
    rewrite <- app_assoc. simpl. auto.
Qed.

(** The restriction cell: what [restricted_cell] builds before it looks at
    the cell it was given. *)
Lemma restricted_cell_restriction self identity cube cell r :
  restricted_cell self identity cube cell = Ok r →
  ∃ restriction,
    restricted_cell self identity cube None = Ok restriction
    ∧ Forall (λ cut, hidden cut = true) (cuts restriction)
    ∧ r = match cell with
          | Some c => cell_and c restriction
          | None => restriction
          end.
Proof.
  unfold restricted_cell.
  destruct (_rightRequest _ _ _ _) as [data|]; [|discriminate].
  rewrite !bind_Ok.
  destruct (data_get _ _) as [restrictions|]; [|discriminate].
  rewrite !bind_Ok.
  destruct (DematAccessRight_init _ _ _ _) as [right|]; [|discriminate].
  rewrite !bind_Ok. cbv zeta.
  set (specs := if truthy_list _ then _ ++ _ else _).
  destruct (truthy_list specs).
  - destruct (restricted_cell_loop cube specs []) as [new_cuts|] eqn:Hloop;
      [|discriminate].
    rewrite !bind_Ok. intros Hr. eexists. split; [reflexivity|].
    apply restricted_cell_loop_hidden in Hloop as (l & -> & Hh & _).
    split; [done|]. destruct cell; by injection Hr as <-.
  - rewrite !bind_Ok. intros Hr. eexists. split; [reflexivity|].
    split; [by constructor|]. destruct cell; by injection Hr as <-.
Qed.

(** C5, amended: in the cell [restricted_cell] returns, the cuts that come
    from the restrictions all have [hidden] true.  Without an existing cell
    these are all the cuts; with an existing cell, its own cuts come first
    and keep the flags they had. *)
Theorem restricted_cell_hidden self identity cube cell r :
  restricted_cell self identity cube cell = Ok r →
  (cell = None → Forall (λ cut, hidden cut = true) (cuts r))
  ∧ (∀ existing, cell = Some existing →
       ∃ restriction_cuts,
         cuts r = cuts existing ++ restriction_cuts
         ∧ Forall (λ cut, hidden cut = true) restriction_cuts).
Proof.
  intros Hr.
  apply restricted_cell_restriction in Hr as (restriction & _ & Hh & ->).
  split.
  - by intros ->.
  - intros existing ->. by exists (cuts restriction).
Qed.

(** With restrictions registered under the universal wildcard only, a cube
    of another name gets exactly the cuts parsed from them. *)
Lemma restricted_cell_wildcard_specs self identity data cube spec specs :
  _rightRequest self identity (restricted_cell_method self)
    (ArgName (cube_name cube)) = Ok (PObject data) →
  cell_restrictions_field data
  = Some {[ ALL_CUBES_WILDCARD := spec :: specs ]} →
  cube_name cube ≠ ALL_CUBES_WILDCARD →
  restricted_cell self identity cube None
  = (restriction_cuts ← restricted_cell_loop cube (spec :: specs) [];
     Ok {| cube := cube; cuts := restriction_cuts |}).
Proof.
  intros Hreq Hdata Hname.
  unfold restricted_cell. rewrite Hreq, !bind_Ok. simpl. rewrite Hdata.
  destruct (init_no_limits (Some []) (Some [])
              (Some {[ ALL_CUBES_WILDCARD := spec :: specs ]}))
    as [right Hright].
  rewrite Hright, bind_Ok.
  apply init_constructed in Hright as [_ _ -> _ _]. simpl.
  rewrite (lookup_singleton_ne ALL_CUBES_WILDCARD (cube_name cube))
    by congruence.
  rewrite lookup_singleton_eq. simpl.
  by destruct (match spec with JString s => _ | _ => _ end ≫= _).
Qed.

(** C6, amended: when the provider registers the cut on region EU under
    the universal wildcard only and the cube is not itself named like the
    wildcard, [restricted_cell] without an existing cell returns the cell
    whose only cut is the one built from that specification, marked
    hidden. *)
Theorem restricted_cell_wildcard_only self identity data cube cut :
  _rightRequest self identity (restricted_cell_method self)
    (ArgName (cube_name cube)) = Ok (PObject data) →
  cell_restrictions_field data
  = Some {[ ALL_CUBES_WILDCARD := [Samples.region_eu] ]} →
  cut_from_dict Samples.region_eu = Ok cut →
  cube_name cube ≠ ALL_CUBES_WILDCARD →
  restricted_cell self identity cube None
  = Ok {| cube := cube; cuts := [set_hidden cut] |}
  ∧ hidden (set_hidden cut) = true
  ∧ dimension (set_hidden cut) = dimension cut
  ∧ values (set_hidden cut) = values cut.
Proof.
  intros Hreq Hdata Hcut Hname. split; [|done].
  rewrite (restricted_cell_wildcard_specs _ _ _ _ _ _ Hreq Hdata Hname).
  simpl. by rewrite Hcut.
Qed.

(** C8: with an existing cell, [restricted_cell] returns the intersection
    of that cell with what it returns without one, and raises whenever the
    call without one raises. *)
Theorem restricted_cell_existing self identity cube (existing : Cell) :
  restricted_cell self identity cube (Some existing)
  = (restriction ← restricted_cell self identity cube None;
     Ok (cell_and existing restriction)).
Proof.
  unfold restricted_cell.
  destruct (_rightRequest _ _ _ _) as [data|]; [|done].
  rewrite !bind_Ok.
  destruct (data_get _ _) as [restrictions|]; [|done].
  rewrite !bind_Ok.
  destruct (DematAccessRight_init _ _ _ _) as [right|]; [|done].
  rewrite !bind_Ok. cbv zeta.
  set (specs := if truthy_list _ then _ ++ _ else _).
  destruct (truthy_list specs); [|done].
  by destruct (restricted_cell_loop cube specs []).
Qed.

End WithCollaborators.

Import Samples.

Lemma fetch_failure_asymmetry_witness :
  (_rightRequest (H := http_unreachable) (sample_authorizer true)
     "token" "authorize" ArgNone = Raise (URLError "connection refused")
   ∧ authorize (H := http_unreachable) (H0 := sample_parsers)
       (sample_authorizer true) "token" scenario_cubes = [])
  ∧ (_rightRequest (H := http_server_error) (sample_authorizer true)
       "token" "restricted-cell" (ArgName "sales") = Raise (HTTPError 500)
     ∧ restricted_cell (H := http_server_error) (H0 := sample_parsers)
         (sample_authorizer true) "token" cube_sales (Some user_cell)
       = Raise (HTTPError 500))
  ∧ (_rightRequest (H := http_not_json) (sample_authorizer true)
       "token" "hierarchy-limits" (ArgCube cube_sales) = Raise JSONDecodeError
     ∧ hierarchy_limits_of (H := http_not_json) (H0 := sample_parsers)
         (sample_authorizer true) "token" cube_sales
       = Raise JSONDecodeError).
Proof.
  split; [|split]; (split; [reflexivity|]).
  - apply (fetch_failure_asymmetry (H := http_unreachable)
             (H0 := sample_parsers) (sample_authorizer true) "token"
             scenario_cubes cube_sales None (URLError "connection refused")).
    reflexivity.
  - apply (fetch_failure_asymmetry (H := http_server_error)
             (H0 := sample_parsers) (sample_authorizer true) "token"
             scenario_cubes cube_sales (Some user_cell) (HTTPError 500)).
    reflexivity.
  - apply (fetch_failure_asymmetry (H := http_not_json)
             (H0 := sample_parsers) (sample_authorizer true) "token"
             scenario_cubes cube_sales None JSONDecodeError).
    reflexivity.
Defined.

Lemma authorize_scenarios_witness :
  (DematAuthorizer_init (Some "https://rights.example/api/") "authorize"
     "restricted-cell" "hierarchy-limits" (Some "deny_allow")
   = Ok (sample_authorizer true)
   ∧ _rightRequest (H := http_answering (PObject scenario_rights))
       (sample_authorizer true) "token" "authorize" ArgNone
     = Ok (PObject scenario_rights)
   ∧ authorize (H := http_answering (PObject scenario_rights))
       (H0 := sample_parsers) (sample_authorizer true) "token"
       ["sales"; "hr"; "sales_test"; "billing_test"]
     = ["sales"; "hr"; "sales_test"; "billing_test"])
  ∧ (DematAuthorizer_init (Some "https://rights.example/api/") "authorize"
       "restricted-cell" "hierarchy-limits" (Some "allow_deny")
     = Ok (sample_authorizer false)
     ∧ _rightRequest (H := http_answering (PObject scenario_rights))
         (sample_authorizer false) "token" "authorize" ArgNone
       = Ok (PObject scenario_rights)
     ∧ authorize (H := http_answering (PObject scenario_rights))
         (H0 := sample_parsers) (sample_authorizer false) "token"
         ["sales"; "hr"; "sales_test"; "billing_test"]
       = ["sales"; "billing_test"]).
Proof.
  split; (split; [reflexivity|]); (split; [reflexivity|]).
  - apply (authorize_scenarios (H := http_answering (PObject scenario_rights))
             (H0 := sample_parsers) (Some "https://rights.example/api/")
             "authorize" "restricted-cell" "hierarchy-limits"
             (Some "deny_allow") (sample_authorizer true) "token"
             scenario_rights);
      reflexivity.
  - apply (authorize_scenarios (H := http_answering (PObject scenario_rights))
             (H0 := sample_parsers) (Some "https://rights.example/api/")
             "authorize" "restricted-cell" "hierarchy-limits"
             (Some "allow_deny") (sample_authorizer false) "token"
             scenario_rights);
      reflexivity.
Defined.

(** C5 as stated fails: with an existing cell that holds a visible cut, the
    cell [restricted_cell] returns holds that cut, still visible. *)
Lemma restricted_cell_visible_cut :
  ∃ r,
    restricted_cell (H := http_answering (PObject scenario_restrictions))
      (H0 := sample_parsers) (sample_authorizer true) "token" cube_sales
      (Some user_cell) = Ok r
    ∧ ∃ cut, cut ∈ cuts r ∧ hidden cut = false.
Proof.
  exists {| cube := cube_sales; cuts := [year_cut; set_hidden region_eu_cut] |}.
  split; [vm_compute; reflexivity|].
  exists year_cut. split; [apply list_elem_of_here | reflexivity].
Qed.

Lemma restricted_cell_hidden_witness :
  restricted_cell (H := http_answering (PObject scenario_restrictions))
    (H0 := sample_parsers) (sample_authorizer true) "token" cube_sales
    (Some user_cell)
  = Ok {| cube := cube_sales; cuts := [year_cut; set_hidden region_eu_cut] |}
  ∧ ∃ restriction_cuts,
      [year_cut; set_hidden region_eu_cut] = cuts user_cell ++ restriction_cuts
      ∧ Forall (λ cut, hidden cut = true) restriction_cuts.
Proof.
  split; [vm_compute; reflexivity|].
  apply (restricted_cell_hidden
           (H := http_answering (PObject scenario_restrictions))
           (H0 := sample_parsers) (sample_authorizer true) "token" cube_sales
           (Some user_cell)
           {| cube := cube_sales;
              cuts := [year_cut; set_hidden region_eu_cut] |});
    [vm_compute; reflexivity | reflexivity].
Defined.

(** C6 as stated fails: for a cube that is itself named like the wildcard,
    the cuts registered under the wildcard are collected twice. *)
Lemma restricted_cell_wildcard_cube_twice :
  ∃ r,
    restricted_cell (H := http_answering (PObject scenario_restrictions))
      (H0 := sample_parsers) (sample_authorizer true) "token" cube_star None
    = Ok r
    ∧ cuts r = [set_hidden region_eu_cut; set_hidden region_eu_cut]
    ∧ length (cuts r) = 2.
Proof.
  exists {| cube := cube_star;
            cuts := [set_hidden region_eu_cut; set_hidden region_eu_cut] |}.
  split; [vm_compute; reflexivity | split; reflexivity].
Qed.

Lemma restricted_cell_wildcard_only_witness :
  (_rightRequest (H := http_answering (PObject scenario_restrictions))
     (sample_authorizer true) "token" "restricted-cell" (ArgName "sales")
   = Ok (PObject scenario_restrictions)
   ∧ cut_from_dict (ModelParsers := sample_parsers) region_eu
     = Ok region_eu_cut)
  ∧ restricted_cell (H := http_answering (PObject scenario_restrictions))
      (H0 := sample_parsers) (sample_authorizer true) "token" cube_sales None
    = Ok {| cube := cube_sales; cuts := [set_hidden region_eu_cut] |}
  ∧ hidden (set_hidden region_eu_cut) = true
  ∧ dimension (set_hidden region_eu_cut) = dimension region_eu_cut
  ∧ values (set_hidden region_eu_cut) = values region_eu_cut.
Proof.
  split; [split; reflexivity|].
  apply (restricted_cell_wildcard_only
           (H := http_answering (PObject scenario_restrictions))
           (H0 := sample_parsers) (sample_authorizer true) "token"
           scenario_restrictions cube_sales region_eu_cut);
    [reflexivity | reflexivity | reflexivity | discriminate].
Defined.

End AuthorizerFacts.

(** ** [sql/utils.py] *)

Module SqlUtilsFacts.

Import SqlUtils Spec PyFacts Samples.

Lemma in_cuts_false cut l : in_cuts cut l = false ↔ cut ∉ l.
Proof. unfold in_cuts. apply bool_decide_eq_false. Qed.

(** C7: [extract_permissions_from_cell] returns, and the data cell and the
    permission cell it returns partition the cuts of the cell it was given:
    a cut is in one of the two exactly when it is in the given cell, none is
    in both, and the permission cell holds the cuts whose dimension carries
    the permission tag.  When no cut carries the tag, the data cell is the
    given cell and the permission cell is [None]. *)
Theorem extract_permissions_partition (cell : option Cell) :
  ∃ data permission,
    extract_permissions_from_cell cell = Ok (data, permission)
    ∧ (∀ cut, cut ∈ cuts_of data ∨ cut ∈ cuts_of permission
              ↔ cut ∈ cuts_of cell)
    ∧ (∀ cut, ¬ (cut ∈ cuts_of data ∧ cut ∈ cuts_of permission))
    ∧ (∀ cut, cut ∈ cuts_of permission
              ↔ cut ∈ cuts_of cell ∧ is_permission_cut cut = true)
    ∧ ((∀ cut, cut ∈ cuts_of cell → is_permission_cut cut = false) →
       data = cell ∧ permission = None).
Proof.
  destruct cell as [[cube cuts]|]; unfold extract_permissions_from_cell; simpl.
  - set (permissions := filter (λ cut, is_permission_cut cut = true) cuts).
    assert (Hperm : ∀ cut,
               cut ∈ permissions ↔ cut ∈ cuts ∧ is_permission_cut cut = true).
    { intros cut. unfold permissions. rewrite list_elem_of_filter. tauto. }
    destruct (truthy_list permissions) eqn:Hp.
    + do 2 eexists. split; [reflexivity|]. simpl.
      assert (Hdata : ∀ cut,
                 cut ∈ filter (λ cut, in_cuts cut permissions = false) cuts
                 ↔ cut ∈ cuts ∧ cut ∉ permissions).
      { intros cut. rewrite list_elem_of_filter, in_cuts_false. tauto. }
      split; [|split; [|split]].
      * intros cut. rewrite Hdata.
        destruct (decide (cut ∈ permissions)) as [Hin|Hin];
          [pose proof (proj1 (Hperm cut) Hin)|]; tauto.
      * intros cut. rewrite Hdata. tauto.
      * done.
      * intros Hnone. destruct permissions as [|cut l] eqn:E; [discriminate|].
        assert (cut ∈ cut :: l) as Hin by apply list_elem_of_here.
        apply Hperm in Hin as [Hin Htag]. rewrite (Hnone _ Hin) in Htag.
        discriminate.
    + apply truthy_list_false in Hp. do 2 eexists. split; [reflexivity|].
      simpl. split; [|split; [|split]].
      * intros cut. rewrite elem_of_nil. tauto.
      * intros cut. rewrite elem_of_nil. tauto.
      * intros cut. rewrite <- Hperm, Hp. done.
      * done.
  - do 2 eexists. split; [reflexivity|]. simpl.
    split; [|split; [|split]]; try done.
    + intros cut. rewrite elem_of_nil. tauto.
    + intros cut. rewrite elem_of_nil. tauto.
    + intros cut. rewrite elem_of_nil. tauto.
Qed.

Lemma extract_permissions_partition_witness :
  (∀ cut, cut ∈ cuts_of (Some user_cell) → is_permission_cut cut = false)
  ∧ extract_permissions_from_cell (Some user_cell) = Ok (Some user_cell, None).
Proof.
  assert (Hnone : ∀ cut, cut ∈ cuts_of (Some user_cell) →
                         is_permission_cut cut = false).
  { intros cut Hin. apply list_elem_of_singleton in Hin as ->. reflexivity. }
  split; [exact Hnone|].
  destruct (extract_permissions_partition (Some user_cell))
    as (data & permission & Hrun & _ & _ & _ & Hsame).
  destruct (Hsame Hnone) as [-> ->]. exact Hrun.
Defined.

(** The split of a cell with one ordinary and one permission cut. *)
Example extract_permissions_mixed :
  extract_permissions_from_cell (Some mixed_cell)
  = Ok (Some {| cube := cube_sales; cuts := [year_cut] |},
        Some {| cube := cube_sales; cuts := [owner_cut] |}).
Proof. vm_compute. reflexivity. Qed.

(** A direction that is given and starts with neither [asc] nor [desc]
    makes [order_column] raise, and what it raises is the [NameError] of
    the exception class it does not import. *)
Lemma order_column_unknown column order :
  truthy_str order = true →
  startswith (lower order) "asc" = false →
  startswith (lower order) "desc" = false →
  order_column column (Some order) = Raise (NameError "ArgumentError").
Proof.
  intros Ht Ha Hd. unfold order_column. cbn [from_option id].
  by rewrite Ht, Ha, Hd.
Qed.

Section Browser.
Variable SPLIT_DIMENSION_NAME : string.

(** The loop over the selected columns never changes the ordering: it
    either passes every column by, none having a natural order, or raises
    on the first one that has. *)
Lemma order_query_natural_Ok items natural_order final_order r :
  order_query_natural items natural_order final_order = Ok r →
  r = final_order
  ∧ ∀ name column, (name, column) ∈ items → natural_order !! name = None.
Proof.
  induction items as [|[name column] items IH]; simpl.
  - intros [= <-]. split; [done|]. intros ? ? Hin. by apply elem_of_nil in Hin.
  - destruct (natural_order !! name) as [direction|] eqn:Hn.
    + rewrite bool_decide_eq_true_2 by eauto. discriminate.
    + rewrite bool_decide_eq_false_2 by (intros [? ?]; discriminate).
      rewrite !bind_Ok. intros Hrest. destruct (IH Hrest) as [-> Hnone].
      split; [done|]. intros name' column' Hin.
      apply elem_of_cons in Hin as [[= -> ->]|Hin]; eauto.
Qed.

Lemma order_query_natural_raises items natural_order final_order :
  (∃ name column,
      (name, column) ∈ items ∧ is_Some (natural_order !! name)) →
  order_query_natural items natural_order final_order
  = Raise (NameError "order_by").
Proof.
  induction items as [|[name column] items IH]; simpl.
  - intros (? & ? & Hin & _). by apply elem_of_nil in Hin.
  - intros (name' & column' & Hin & Hsome).
    destruct (natural_order !! name) as [direction|] eqn:Hn.
    + by rewrite bool_decide_eq_true_2 by eauto.
    + rewrite bool_decide_eq_false_2 by (intros [? ?]; discriminate).
      rewrite !bind_Ok. apply IH.
      apply elem_of_cons in Hin as [[= -> ->]|Hin]; [|eauto].
      rewrite Hn in Hsome. by destruct Hsome.
Qed.

(** C9, where the code departs from it: a statement that selects [year],
    no explicit order, and a natural order that declares [asc] for [year].
    The natural ordering term is not appended; the call raises the
    [NameError] of [order_by]. *)
Theorem order_query_natural_order_unbound :
  order_query SPLIT_DIMENSION_NAME
    {| stmt_columns := [NamedColumn "year"]; stmt_order_by := [] |}
    None (Some {[ "year" := Some "asc" ]}) (Some ["year"])
  = Raise (NameError "order_by").
Proof.
  unfold order_query. cbn [from_option id order_query_explicit].
  rewrite bind_Ok.
  rewrite order_query_natural_raises; [reflexivity|].
  exists "year", (NamedColumn "year").
  split; [apply list_elem_of_here | by rewrite lookup_singleton_eq].
Qed.

(** C10, where the code departs from it: the direction [sideways] makes
    [order_column], and [order_query] through it, raise a [NameError] and
    not an [ArgumentError]. *)
Theorem order_column_unknown_direction :
  order_column (NamedColumn "year") (Some "sideways")
  = Raise (NameError "ArgumentError")
  ∧ order_query SPLIT_DIMENSION_NAME
      {| stmt_columns := [NamedColumn "year"]; stmt_order_by := [] |}
      (Some [("year", Some "sideways")]) None (Some ["year"])
    = Raise (NameError "ArgumentError").
Proof.
  split; [by apply order_column_unknown|].
  unfold order_query. cbn [from_option id]. reflexivity.
Qed.

End Browser.

End SqlUtilsFacts.

(** ** More about the access right *)

Module AccessRightMore.

Import CustomAuth Spec Reference PyFacts AccessRightFacts.

Lemma constructed_exchanged allowed denied restrictions self :
  constructed allowed denied restrictions self →
  constructed denied allowed restrictions (exchanged self).
Proof. intros [? ? ? ? ?]. by split. Qed.

Lemma deny_flag_exchanged self name :
  deny_flag self name = allow_flag (exchanged self) name.
Proof. reflexivity. Qed.

Lemma constructed_entries allowed denied restrictions self :
  constructed allowed denied restrictions self →
  constructed (Some (default [] allowed)) denied restrictions self.
Proof. intros [? ? ? ? ?]. by split. Qed.

Lemma allow_flag_entries allowed denied restrictions self name :
  constructed allowed denied restrictions self →
  allow_flag self name = true ↔ matches_entries (default [] allowed) name.
Proof.
  intros Hc. rewrite (allow_flag_allowMatch _ _ _ _ _ Hc).
  apply constructed_entries in Hc.
  by apply (allowMatch_entries _ _ _ _ _ _ Hc).
Qed.

(** X1: on the access right the constructor builds, a name gets the allow
    flag exactly when it matches the allowed entries, and the deny flag
    exactly when it matches the denied entries; an entry with no star at
    either end takes part as an exact name only. *)
Theorem flags_match_entries `{ModelParsers}
    allowed denied restrictions limits self name :
  DematAccessRight_init allowed denied restrictions limits = Ok self →
  (allow_flag self name = true ↔ matches_entries (default [] allowed) name)
  ∧ (deny_flag self name = true ↔ matches_entries (default [] denied) name).
Proof.
  intros Hinit. apply init_constructed in Hinit. split.
  - by apply allow_flag_entries with denied restrictions.
  - rewrite deny_flag_exchanged.
    apply allow_flag_entries with allowed restrictions.
    by apply constructed_exchanged.
Qed.

Lemma flags_match_entries_witness :
  DematAccessRight_init (H := Samples.sample_parsers)
    (Some ["sales"; "*_test"]) (Some ["sales_test"]) None None
  = Ok Samples.scenario_right
  ∧ (allow_flag Samples.scenario_right "billing_test" = true
     ↔ matches_entries ["sales"; "*_test"] "billing_test")
  ∧ (deny_flag Samples.scenario_right "billing_test" = true
     ↔ matches_entries ["sales_test"] "billing_test").
Proof.
  split; [vm_compute; reflexivity|].
  apply (flags_match_entries (H := Samples.sample_parsers)
           (Some ["sales"; "*_test"]) (Some ["sales_test"]) None None).
  vm_compute; reflexivity.
Defined.

(** X2: whatever the access right, a name the order allow-then-deny admits
    is admitted by the order deny-then-allow as well. *)
Theorem allow_deny_stricter self name :
  is_allowed self name false = true → is_allowed self name true = true.
Proof.
  unfold is_allowed.
  destruct (allow_flag self name), (deny_flag self name); simpl; congruence.
Qed.

Lemma allow_deny_stricter_witness :
  is_allowed Samples.scenario_right "sales" false = true
  ∧ is_allowed Samples.scenario_right "sales" true = true.
Proof.
  split; [vm_compute; reflexivity|].
  apply allow_deny_stricter. vm_compute; reflexivity.
Defined.

(** The flags of an access right built from no entries at all. *)
Lemma no_entries_flags allowed denied restrictions self name :
  constructed allowed denied restrictions self →
  default [] allowed = [] →
  allow_flag self name = false.
Proof.
  intros [Ha _ _ _ _] He. unfold allow_flag.
  assert (allowed_cubes self = ∅) as ->; [|done].
  rewrite Ha. unfold set_of. by rewrite He.
Qed.

(** X3: an access right built from no allowed and no denied entries (the
    fields missing or empty) admits every name under deny-then-allow and no
    name under allow-then-deny. *)
Theorem no_entries_default `{ModelParsers}
    allowed denied restrictions limits self name :
  DematAccessRight_init allowed denied restrictions limits = Ok self →
  default [] allowed = [] → default [] denied = [] →
  is_allowed self name true = true ∧ is_allowed self name false = false.
Proof.
  intros Hinit Ha Hd. apply init_constructed in Hinit. unfold is_allowed.
  rewrite (no_entries_flags _ _ _ _ _ Hinit Ha).
  rewrite deny_flag_exchanged.
  by rewrite (no_entries_flags _ _ _ _ _ (constructed_exchanged _ _ _ _ Hinit) Hd).
Qed.

Lemma no_entries_default_witness :
  DematAccessRight_init (H := Samples.sample_parsers) None (Some []) None None
  = Ok (access_right_iterating [] [] ∅ ∅)
  ∧ is_allowed (access_right_iterating [] [] ∅ ∅) "sales" true = true
  ∧ is_allowed (access_right_iterating [] [] ∅ ∅) "sales" false = false.
Proof.
  split; [vm_compute; reflexivity|].
  apply (no_entries_default (H := Samples.sample_parsers)
           None (Some []) None None);
    [vm_compute; reflexivity | reflexivity | reflexivity].
Defined.

(** Two lists with the same members agree on [any]. *)
Lemma any_same_members {A} (f : A → bool) (l k : list A) :
  (∀ x, x ∈ l ↔ x ∈ k) → any f l = any f k.
Proof.
  intros Hm. apply eq_true_iff_eq. rewrite !any_true.
  split; intros (x & Hx & Hf); exists x; split; auto; by apply Hm.
Qed.

(** The flag needs of the pattern lists only that they are empty when the
    set is. *)
Lemma allow_flag_allowMatch_guard self name :
  (allowed_cubes self = ∅ →
   allowed_cube_prefix self = [] ∧ allowed_cube_suffix self = []) →
  allow_flag self name = allowMatch self name.
Proof.
  intros Hg. unfold allow_flag, allowMatch.
  destruct (truthy_set (allowed_cubes self)) eqn:Hs.
  - destruct (in_set name _ || in_set ALL_CUBES_WILDCARD _); simpl; [done|].
    rewrite any_guarded.
    destruct (any (λ p, startswith name p) _); simpl; [done|].
    apply any_guarded.
  - apply truthy_set_false in Hs. destruct (Hg Hs) as [-> ->].
    by rewrite Hs.
Qed.

Lemma allow_flag_iterating allowed_order denied_order allowed denied name :
  allowed_order ≡ₚ elements allowed →
  allow_flag (access_right_iterating allowed_order denied_order allowed denied)
    name
  = allow_flag_of allowed name.
Proof.
  intros Hperm. unfold access_right_iterating, allow_flag_of.
  destruct (get_patterns_loop allowed_order [] []) as [s1 p1] eqn:E1.
  destruct (get_patterns_loop denied_order [] []) as [s2 p2] eqn:E2.
  destruct (get_patterns_loop (elements allowed) [] []) as [s0 p0] eqn:E0.
  rewrite allow_flag_allowMatch_guard.
  - unfold allowMatch. simpl. f_equal; [f_equal|].
    + apply any_same_members. intros p.
      replace p1 with (get_patterns_loop allowed_order [] []).2
        by (by rewrite E1).
      replace p0 with (get_patterns_loop (elements allowed) [] []).2
        by (by rewrite E0).
      rewrite !get_patterns_loop_prefix.
      by setoid_rewrite Hperm.
    + apply any_same_members. intros p.
      replace s1 with (get_patterns_loop allowed_order [] []).1
        by (by rewrite E1).
      replace s0 with (get_patterns_loop (elements allowed) [] []).1
        by (by rewrite E0).
      rewrite !get_patterns_loop_suffix.
      by setoid_rewrite Hperm.
  - simpl. intros ->. rewrite elements_empty in Hperm.
    apply Permutation_nil_r in Hperm. subst allowed_order.
    simpl in E1. by injection E1 as <- <-.
Qed.

(** X4: the decision does not depend on the order in which iterating the
    two sets yields their elements: built with any two orders, the access
    right decides every name as the constructed one does. *)
Theorem is_allowed_iteration_order `{ModelParsers}
    allowed denied restrictions limits self allowed_order denied_order
    name allow_after_denied :
  DematAccessRight_init allowed denied restrictions limits = Ok self →
  allowed_order ≡ₚ elements (allowed_cubes self) →
  denied_order ≡ₚ elements (denied_cubes self) →
  is_allowed
    (access_right_iterating allowed_order denied_order
       (allowed_cubes self) (denied_cubes self))
    name allow_after_denied
  = is_allowed self name allow_after_denied.
Proof.
  intros Hinit Ha Hd. apply init_constructed in Hinit.
  unfold is_allowed.
  rewrite (allow_flag_iterating _ _ _ _ _ Ha).
  rewrite (allow_flag_constructed _ _ _ _ _ Hinit).
  rewrite !deny_flag_exchanged.
  rewrite (allow_flag_constructed _ _ _ _ _ (constructed_exchanged _ _ _ _ Hinit)).
  replace (allow_flag (exchanged (access_right_iterating _ _ _ _)) name)
    with (allow_flag
            (access_right_iterating denied_order allowed_order
               (denied_cubes self) (allowed_cubes self)) name).
  - rewrite (allow_flag_iterating _ _ _ _ _ Hd).
    destruct Hinit as [-> -> _ _ _]. done.
  - unfold access_right_iterating, exchanged.
    destruct (get_patterns_loop allowed_order [] []).
    by destruct (get_patterns_loop denied_order [] []).
Qed.

Lemma is_allowed_iteration_order_witness :
  DematAccessRight_init (H := Samples.sample_parsers)
    (Some ["sales"; "*_test"]) (Some ["sales_test"]) None None
  = Ok Samples.scenario_right
  ∧ is_allowed
      (access_right_iterating ["*_test"; "sales"] ["sales_test"]
         (allowed_cubes Samples.scenario_right)
         (denied_cubes Samples.scenario_right))
      "billing_test" false
    = is_allowed Samples.scenario_right "billing_test" false.
Proof.
  split; [vm_compute; reflexivity|].
  apply (is_allowed_iteration_order (H := Samples.sample_parsers)
           (Some ["sales"; "*_test"]) (Some ["sales_test"]) None None).
  - vm_compute; reflexivity.
  - vm_compute. apply perm_swap.
  - vm_compute. reflexivity.
Defined.

End AccessRightMore.

(** ** More about the authorizer *)

Module AuthorizerMore.

Import CustomAuth Spec Reference PyFacts AccessRightFacts AccessRightMore.
Import AuthorizerFacts.

(** X5: the constructor of the authorizer returns exactly when the url is
    given and not empty and the order is left out, empty, [allow_deny] or
    [deny_allow]; the object then stores the url and the method names, and
    [allow_after_denied] is false for [allow_deny] only.  Without a url it
    raises the configuration error of the url, whatever the order. *)
Theorem authorizer_configuration url am rm hm order :
  (∀ self,
     DematAuthorizer_init url am rm hm order = Ok self ↔
     truthy_str (default "" url) = true
     ∧ default "" order ∈ [""; "allow_deny"; "deny_allow"]
     ∧ self = {| CustomAuth.url := default "" url;
                 authorize_method := am;
                 restricted_cell_method := rm;
                 hierarchy_limits_method := hm;
                 allow_after_denied :=
                   negb (String.eqb (default "" order) "allow_deny") |})
  ∧ (truthy_str (default "" url) = false →
     DematAuthorizer_init url am rm hm order
     = Raise (ConfigurationError "Missing authorizer url")).
Proof.
  unfold DematAuthorizer_init.
  destruct (truthy_str (default "" url)); [|split; [|done]];
    [|intros self; split; [discriminate | by intros [? _]]].
  split; [|discriminate]. intros self. rewrite bind_Ok. cbv zeta.
  destruct (default "" order) as [|c o] eqn:Ho; cbn [truthy_str].
  { cbn. split; [intros [= <-]|intros (_ & _ & ->)]; [|done].
    split; [done|]. split; [|done]. apply list_elem_of_here. }
  destruct (String.eqb (String c o) "allow_deny") eqn:E1.
  { apply String.eqb_eq in E1. rewrite bind_Ok.
    split; [intros [= <-]|intros (_ & _ & ->)]; [|done].
    split; [done|]. split; [|done]. rewrite E1.
    apply list_elem_of_further, list_elem_of_here. }
  destruct (String.eqb (String c o) "deny_allow") eqn:E2.
  { apply String.eqb_eq in E2. rewrite bind_Ok.
    split; [intros [= <-]|intros (_ & _ & ->)]; [|done].
    split; [done|]. split; [|done]. rewrite E2.
    do 2 apply list_elem_of_further. apply list_elem_of_here. }
  rewrite bind_Raise. split; [discriminate|].
  intros (_ & Hin & _). apply String.eqb_neq in E1, E2.
  repeat (apply elem_of_cons in Hin as [Hin|Hin]; [congruence|]).
  by apply elem_of_nil in Hin.
Qed.

Section WithCollaborators.
Context `{Http} `{ModelParsers}.

(** Whatever the provider answers, [authorize] filters the candidates by
    a test that does not depend on the list it is given. *)
Lemma authorize_is_filter {A} `{Str A} self identity :
  ∃ keep : A → bool,
    ∀ cubes, authorize self identity cubes = List.filter keep cubes.
Proof.
  unfold authorize.
  destruct (_ ≫= _) as [right|e].
  - exists (λ cube, is_allowed right (str cube) (allow_after_denied self)).
    intros cubes. by rewrite authorize_loop_filter.
  - exists (λ _, false). intros cubes. by induction cubes.
Qed.

Lemma filter_sublist {A} (f : A → bool) (l : list A) :
  List.filter f l `sublist_of` l.
Proof.
  induction l as [|x l IH]; simpl; [constructor|].
  destruct (f x); by constructor.
Qed.

Lemma filter_idempotent {A} (f : A → bool) (l : list A) :
  List.filter f (List.filter f l) = List.filter f l.
Proof.
  induction l as [|x l IH]; simpl; [done|].
  destruct (f x) eqn:Hx; simpl; [rewrite Hx; by f_equal | done].
Qed.

(** X6: whatever the provider answers or fails to answer, [authorize]
    returns candidates only, each at most as often as it was given and in
    the order given. *)
Theorem authorize_sublist {A} `{Str A} self identity (cubes : list A) :
  authorize self identity cubes `sublist_of` cubes.
Proof.
  destruct (authorize_is_filter self identity) as [keep Hk].
  rewrite Hk. apply filter_sublist.
Qed.

(** X7: every candidate is decided on its own: authorizing two lists one
    after the other gives what authorizing their concatenation gives, and
    authorizing the cubes already authorized returns them all. *)
Theorem authorize_composes {A} `{Str A} self identity (cubes more : list A) :
  authorize self identity (cubes ++ more)
  = authorize self identity cubes ++ authorize self identity more
  ∧ authorize self identity (authorize self identity cubes)
    = authorize self identity cubes.
Proof.
  destruct (authorize_is_filter self identity) as [keep Hk].
  rewrite !Hk. split; [apply List.filter_app | apply filter_idempotent].
Qed.

(** X8: once the rights are fetched, [authorize] returns exactly the
    candidates whose name [is_allowed] admits on the access right built
    from the allowed and denied entries of the answer. *)
Theorem authorize_filters {A} `{Str A} self identity (cubes : list A)
    data right :
  _rightRequest self identity (authorize_method self) ArgNone
  = Ok (PObject data) →
  DematAccessRight_init (allowed_cubes_field data) (denied_cubes_field data)
    (Some ∅) (Some []) = Ok right →
  authorize self identity cubes
  = List.filter
      (λ cube, is_allowed right (str cube) (allow_after_denied self)) cubes.
Proof.
  intros Hreq Hinit. rewrite (authorize_fetched _ _ _ _ Hreq), Hinit.
  by rewrite authorize_loop_filter.
Qed.

(** X9: an answer that is valid JSON but not an object makes [authorize]
    return the empty list, and makes [restricted_cell] and
    [hierarchy_limits] raise the attribute error of the missing [get]. *)
Theorem payload_not_an_object {A} `{Str A} self identity (cubes : list A)
    cube cell j :
  (_rightRequest self identity (authorize_method self) ArgNone
   = Ok (PNotObject j) →
   authorize self identity cubes = [])
  ∧ (_rightRequest self identity (restricted_cell_method self)
       (ArgName (cube_name cube)) = Ok (PNotObject j) →
     restricted_cell self identity cube cell = Raise (AttributeError "get"))
  ∧ (_rightRequest self identity (hierarchy_limits_method self)
       (ArgCube cube) = Ok (PNotObject j) →
     hierarchy_limits_of self identity cube = Raise (AttributeError "get")).
Proof.
  split; [|split]; intros Hreq.
  - unfold authorize. by rewrite Hreq.
  - unfold restricted_cell. by rewrite Hreq.
  - unfold hierarchy_limits_of. by rewrite Hreq.
Qed.

(** X10: when the answer names no allowed and no denied cube (the fields
    missing or empty), an authorizer of order [deny_allow] returns every
    candidate and one of order [allow_deny] returns none. *)
Theorem authorize_no_entries {A} `{Str A} self identity (cubes : list A)
    data :
  _rightRequest self identity (authorize_method self) ArgNone
  = Ok (PObject data) →
  default [] (allowed_cubes_field data) = [] →
  default [] (denied_cubes_field data) = [] →
  authorize self identity cubes
  = if allow_after_denied self then cubes else [].
Proof.
  intros Hreq Ha Hd.
  destruct (init_no_limits (allowed_cubes_field data)
              (denied_cubes_field data) (Some ∅)) as [right Hright].
  rewrite (authorize_fetched _ _ _ _ Hreq), Hright, authorize_loop_filter.
  cbn [app].
  assert (Hall : ∀ name, is_allowed right name true = true
                         ∧ is_allowed right name false = false).
  { intros name. apply init_constructed in Hright. unfold is_allowed.
    rewrite (no_entries_flags _ _ _ _ _ Hright Ha), deny_flag_exchanged.
    by rewrite (no_entries_flags _ _ _ _ _
                  (constructed_exchanged _ _ _ _ Hright) Hd). }
  destruct (allow_after_denied self); induction cubes as [|cube cubes IH];
    cbn [List.filter]; try done.
  - destruct (Hall (str cube)) as [-> _]. by f_equal.
  - by destruct (Hall (str cube)) as [_ ->].
Qed.

Lemma mapM_cons {A B} (f : A → result B) x l :
  mapM f (x :: l) = (y ← f x; k ← mapM f l; Ok (y :: k)).
Proof. reflexivity. Qed.

Lemma mapM_app {A B} (f : A → result B) l k :
  mapM f (l ++ k) = (a ← mapM f l; b ← mapM f k; Ok (a ++ b)).
Proof.
  induction l as [|x l IH]; simpl.
  - by destruct (mapM f k).
  - destruct (f x) as [y|e]; [|done]. rewrite !bind_Ok. fold (mapM f).
    rewrite IH. destruct (mapM f l) as [a|e]; [|done]. rewrite !bind_Ok.
    by destruct (mapM f k).
Qed.

(** The loop of [restricted_cell] resolves the specifications one by one
    and stops at the first that does not resolve. *)
Lemma restricted_cell_loop_mapM cube specs restriction_cuts :
  restricted_cell_loop cube specs restriction_cuts
  = (resolved ← mapM (resolve_cut cube) specs;
     Ok (restriction_cuts ++ map set_hidden resolved)).
Proof.
  revert restriction_cuts.
  induction specs as [|spec specs IH]; intros restriction_cuts.
  - simpl. by rewrite app_nil_r.
  - rewrite mapM_cons. cbn [restricted_cell_loop].
    change (match spec with
            | JString s => cut_from_string s cube
            | _ => cut_from_dict spec
            end) with (resolve_cut cube spec).
    destruct (resolve_cut cube spec) as [cut|e]; [|done].
    rewrite !bind_Ok, IH.
    destruct (mapM (resolve_cut cube) specs) as [resolved|e]; [|done].
    rewrite !bind_Ok. simpl. by rewrite <- app_assoc.
Qed.

(** [restricted_cell] once the restrictions were fetched. *)
Lemma restricted_cell_fetched self identity cube cell data :
  _rightRequest self identity (restricted_cell_method self)
    (ArgName (cube_name cube)) = Ok (PObject data) →
  restricted_cell self identity cube cell
  = (resolved ← mapM (resolve_cut cube) (registered_specs data cube);
     Ok (with_existing cell
           {| cube := cube; cuts := map set_hidden resolved |})).
Proof.
  intros Hreq. unfold restricted_cell. rewrite Hreq, !bind_Ok.
  cbn [data_get]. rewrite bind_Ok.
  destruct (init_no_limits (Some []) (Some []) (cell_restrictions_field data))
    as [right Hright].
  rewrite Hright, bind_Ok.
  apply init_constructed in Hright as [_ _ -> _ _]. cbv zeta.
  unfold registered_specs. cbv zeta.
  set (own := default [] (_ !! cube_name cube)).
  set (any_cuts := default [] (_ !! ALL_CUBES_WILDCARD)).
  assert ((if truthy_list any_cuts then own ++ any_cuts else own)
          = own ++ any_cuts) as ->.
  { destruct any_cuts; [by rewrite app_nil_r | done]. }
  destruct (own ++ any_cuts) as [|spec specs] eqn:Hspecs.
  - simpl. by destruct cell.
  - cbn [truthy_list]. rewrite restricted_cell_loop_mapM.
    destruct (mapM (resolve_cut cube) (spec :: specs)) as [resolved|e];
      [|done].
    rewrite !bind_Ok. by destruct cell.
Qed.

(** X11: when every registered specification resolves, the restriction cell
    holds one cut for each, in their order, those registered under the
    cube's name before those registered under the universal wildcard, each
    as resolved and marked hidden. *)
Theorem restricted_cell_resolved self identity cube data resolved :
  _rightRequest self identity (restricted_cell_method self)
    (ArgName (cube_name cube)) = Ok (PObject data) →
  mapM (resolve_cut cube) (registered_specs data cube) = Ok resolved →
  restricted_cell self identity cube None
  = Ok {| cube := cube; cuts := map set_hidden resolved |}.
Proof.
  intros Hreq Hres. by rewrite (restricted_cell_fetched _ _ _ _ _ Hreq), Hres.
Qed.

(** X12: when nothing is registered for the cube, neither under its name
    nor under the universal wildcard, [restricted_cell] returns the
    existing cell as it is, and the cell without cuts when there is none. *)
Theorem restricted_cell_unrestricted self identity cube data existing :
  _rightRequest self identity (restricted_cell_method self)
    (ArgName (cube_name cube)) = Ok (PObject data) →
  registered_specs data cube = [] →
  restricted_cell self identity cube (Some existing) = Ok existing
  ∧ restricted_cell self identity cube None = Ok (Cell_of_cube cube).
Proof.
  intros Hreq Hnone.
  rewrite !(restricted_cell_fetched _ _ _ _ _ Hreq), Hnone. simpl.
  split; [|done]. unfold cell_and. simpl. rewrite app_nil_r.
  by destruct existing.
Qed.

(** X13: when a registered specification does not resolve, those before it
    resolving, [restricted_cell] raises what resolving it raised, with or
    without an existing cell: it never returns a cell that leaves a
    restriction out. *)
Theorem restricted_cell_unresolved self identity cube cell data
    before spec after resolved e :
  _rightRequest self identity (restricted_cell_method self)
    (ArgName (cube_name cube)) = Ok (PObject data) →
  registered_specs data cube = before ++ spec :: after →
  mapM (resolve_cut cube) before = Ok resolved →
  resolve_cut cube spec = Raise e →
  restricted_cell self identity cube cell = Raise e.
Proof.
  intros Hreq Hspecs Hbefore Hspec.
  rewrite (restricted_cell_fetched _ _ _ _ _ Hreq), Hspecs.
  by rewrite mapM_app, Hbefore, bind_Ok, mapM_cons, Hspec.
Qed.

(** The inner loop of the constructor appends the resolved limits of one
    cube to what the map holds for it. *)
Lemma init_limits_loop_mapM cube limits acc :
  init_limits_loop cube limits acc
  = (resolved ← mapM resolve_limit limits;
     Ok (foldl (λ m l, <[cube := default [] (m !! cube) ++ [l]]> m)
           acc resolved)).
Proof.
  revert acc. induction limits as [|limit limits IH]; intros acc; [done|].
  rewrite mapM_cons. cbn [init_limits_loop].
  change (match limit with
          | JString s =>
              '(d, h, l) ← string_to_dimension_level s;
              Ok (LimitLevel d h l)
          | _ => Ok (LimitRaw limit)
          end) with (resolve_limit limit).
  destruct (resolve_limit limit) as [l|e]; [|done].
  rewrite !bind_Ok, IH.
  by destruct (mapM resolve_limit limits).
Qed.

Lemma appended_limits_lookup cube (resolved : list Limit)
    (acc : gmap string (list Limit)) name :
  default []
    (foldl (λ m l, <[cube := default [] (m !! cube) ++ [l]]> m) acc resolved
     !! name)
  = default [] (acc !! name)
    ++ (if String.eqb cube name then resolved else []).
Proof.
  revert acc. induction resolved as [|l resolved IH]; intros acc; simpl.
  - destruct (String.eqb cube name); by rewrite app_nil_r.
  - rewrite IH. destruct (String.eqb cube name) eqn:E.
    + apply String.eqb_eq in E as ->. rewrite lookup_insert_eq. simpl.
      by rewrite <- app_assoc.
    + apply String.eqb_neq in E. by rewrite lookup_insert_ne.
Qed.

(** The outer loop either raises what resolving all the limits in their
    order raises, or leaves under every name the limits registered for it,
    resolved, after what the map held. *)
Lemma init_hierarchy_loop_spec items (acc : gmap string (list Limit)) :
  match init_hierarchy_loop items acc with
  | Ok m =>
      (∃ every, mapM resolve_limit (concat (map snd items)) = Ok every)
      ∧ ∀ name, ∃ resolved,
          mapM resolve_limit (limits_registered name items) = Ok resolved
          ∧ default [] (m !! name) = default [] (acc !! name) ++ resolved
  | Raise e => mapM resolve_limit (concat (map snd items)) = Raise e
  end.
Proof.
  revert acc. induction items as [|[cube limits] items IH]; intros acc.
  - simpl. split; [by exists []|]. intros name. exists [].
    by rewrite app_nil_r.
  - cbn [init_hierarchy_loop map snd concat limits_registered].
    rewrite init_limits_loop_mapM, mapM_app.
    destruct (mapM resolve_limit limits) as [resolved|e] eqn:Hres; [|done].
    rewrite !bind_Ok.
    match goal with
    | |- context [init_hierarchy_loop items ?acc'] => specialize (IH acc')
    end.
    destruct (init_hierarchy_loop items _) as [m|e].
    + destruct IH as [[every Hevery] Hnames]. rewrite Hevery, bind_Ok.
      split; [eauto|]. intros name.
      destruct (Hnames name) as (rest & Hrest & Hm).
      rewrite Hm, appended_limits_lookup.
      destruct (String.eqb cube name).
      * exists (resolved ++ rest). split; [|by rewrite app_assoc].
        by rewrite mapM_app, Hres, bind_Ok, Hrest.
      * exists rest. by rewrite app_nil_r.
    + by rewrite IH.
Qed.

(** What the constructor does with the hierarchy limits it is given. *)
Lemma init_hierarchy_limits allowed denied restrictions limits :
  match DematAccessRight_init allowed denied restrictions limits with
  | Ok self =>
      init_hierarchy_loop (default [] limits) ∅ = Ok (hierarchy_limits self)
  | Raise e => init_hierarchy_loop (default [] limits) ∅ = Raise e
  end.
Proof.
  unfold DematAccessRight_init, _get_patterns.
  assert ((if truthy_opt limits
           then init_hierarchy_loop (default [] limits) ∅ else Ok ∅)
          = init_hierarchy_loop (default [] limits) ∅) as ->.
  { by destruct limits as [[|item items]|]. }
  destruct (init_hierarchy_loop (default [] limits) ∅) as [m|e]; [|done].
  rewrite bind_Ok. cbv zeta.
  destruct (get_patterns_loop (elements (if truthy_opt allowed then _ else _))
              [] []).
  by destruct (get_patterns_loop
                 (elements (if truthy_opt denied then _ else _)) [] []).
Qed.

(** [hierarchy_limits] once the limits were fetched. *)
Lemma hierarchy_limits_fetched self identity cube data :
  _rightRequest self identity (hierarchy_limits_method self) (ArgCube cube)
  = Ok (PObject data) →
  let items := default [] (hierarchy_limits_field data) in
  match hierarchy_limits_of self identity cube with
  | Ok limits =>
      (∃ every, mapM resolve_limit (concat (map snd items)) = Ok every)
      ∧ mapM resolve_limit (limits_registered (cube_name cube) items)
        = Ok limits
  | Raise e => mapM resolve_limit (concat (map snd items)) = Raise e
  end.
Proof.
  intros Hreq items. unfold hierarchy_limits_of.
  rewrite Hreq, !bind_Ok. cbn [data_get]. rewrite bind_Ok.
  pose proof (init_hierarchy_limits (Some []) (Some []) (Some ∅)
                (hierarchy_limits_field data)) as Hinit.
  pose proof (init_hierarchy_loop_spec items ∅) as Hloop.
  fold items in Hinit.
  destruct (DematAccessRight_init _ _ _ _) as [right|e].
  - rewrite Hinit in Hloop. destruct Hloop as [Hevery Hnames].
    rewrite bind_Ok. split; [done|].
    destruct (Hnames (cube_name cube)) as (resolved & Hres & Hm).
    rewrite lookup_empty in Hm. simpl in Hm.
    unfold str, str_Cube. by rewrite Hm.
  - rewrite Hinit in Hloop. by rewrite bind_Raise.
Qed.

(** X14: when every limit the answer registers resolves, [hierarchy_limits]
    returns the limits registered under the cube's name, in their order,
    each string resolved to a level and anything else kept as it came; for
    a cube the answer registers nothing under, that is the empty list. *)
Theorem hierarchy_limits_resolved self identity cube data every :
  _rightRequest self identity (hierarchy_limits_method self) (ArgCube cube)
  = Ok (PObject data) →
  mapM resolve_limit
    (concat (map snd (default [] (hierarchy_limits_field data)))) = Ok every →
  hierarchy_limits_of self identity cube
  = mapM resolve_limit
      (limits_registered (cube_name cube)
         (default [] (hierarchy_limits_field data))).
Proof.
  intros Hreq Hevery.
  pose proof (hierarchy_limits_fetched _ _ cube _ Hreq) as Hf. cbv zeta in Hf.
  destruct (hierarchy_limits_of self identity cube) as [limits|e].
  - by destruct Hf as [_ ->].
  - congruence.
Qed.

(** X15: a limit that does not resolve, under whichever cube the answer
    registers it, makes [hierarchy_limits] raise for every cube: the first
    such limit in the order of the answer decides what is raised. *)
Theorem hierarchy_limits_unresolved self identity cube data
    before limit after resolved e :
  _rightRequest self identity (hierarchy_limits_method self) (ArgCube cube)
  = Ok (PObject data) →
  concat (map snd (default [] (hierarchy_limits_field data)))
  = before ++ limit :: after →
  mapM resolve_limit before = Ok resolved →
  resolve_limit limit = Raise e →
  hierarchy_limits_of self identity cube = Raise e.
Proof.
  intros Hreq Hall Hbefore Hlimit.
  pose proof (hierarchy_limits_fetched _ _ cube _ Hreq) as Hf. cbv zeta in Hf.
  rewrite Hall, mapM_app, Hbefore, bind_Ok, mapM_cons, Hlimit in Hf.
  destruct (hierarchy_limits_of self identity cube) as [limits|e'].
  - by destruct Hf as [[every Hevery] _].
  - by injection Hf as ->.
Qed.

End WithCollaborators.

Import Samples.

Lemma authorize_filters_witness :
  (_rightRequest (H := http_answering (PObject scenario_rights))
     (sample_authorizer false) "token" "authorize" ArgNone
   = Ok (PObject scenario_rights)
   ∧ DematAccessRight_init (H := sample_parsers)
       (Some ["sales"; "*_test"]) (Some ["sales_test"]) (Some ∅) (Some [])
     = Ok scenario_right)
  ∧ authorize (H := http_answering (PObject scenario_rights))
      (H0 := sample_parsers) (sample_authorizer false) "token" scenario_cubes
    = List.filter (λ cube, is_allowed scenario_right (str cube) false)
        scenario_cubes.
Proof.
  split; [split; [reflexivity | vm_compute; reflexivity]|].
  apply (authorize_filters (H := http_answering (PObject scenario_rights))
           (H0 := sample_parsers) (sample_authorizer false) "token"
           scenario_cubes scenario_rights scenario_right);
    [reflexivity | vm_compute; reflexivity].
Defined.

Lemma payload_not_an_object_witness :
  _rightRequest (H := http_answering (PNotObject (JArray [])))
    (sample_authorizer true) "token" "restricted-cell" (ArgName "sales")
  = Ok (PNotObject (JArray []))
  ∧ restricted_cell (H := http_answering (PNotObject (JArray [])))
      (H0 := sample_parsers) (sample_authorizer true) "token" cube_sales None
    = Raise (AttributeError "get").
Proof.
  split; [reflexivity|].
  apply (payload_not_an_object (H := http_answering (PNotObject (JArray [])))
           (H0 := sample_parsers) (sample_authorizer true) "token"
           scenario_cubes cube_sales None (JArray [])).
  reflexivity.
Defined.

Lemma authorize_no_entries_witness :
  _rightRequest (H := http_answering (PObject empty_rights))
    (sample_authorizer true) "token" "authorize" ArgNone
  = Ok (PObject empty_rights)
  ∧ authorize (H := http_answering (PObject empty_rights))
      (H0 := sample_parsers) (sample_authorizer true) "token" scenario_cubes
    = scenario_cubes.
Proof.
  split; [reflexivity|].
  apply (authorize_no_entries (H := http_answering (PObject empty_rights))
           (H0 := sample_parsers) (sample_authorizer true) "token"
           scenario_cubes empty_rights); reflexivity.
Defined.

Lemma restricted_cell_resolved_witness :
  (_rightRequest (H := http_answering (PObject scenario_restrictions))
     (sample_authorizer true) "token" "restricted-cell" (ArgName "sales")
   = Ok (PObject scenario_restrictions)
   ∧ mapM (resolve_cut (H := sample_parsers) cube_sales)
       (registered_specs scenario_restrictions cube_sales)
     = Ok [region_eu_cut])
  ∧ restricted_cell (H := http_answering (PObject scenario_restrictions))
      (H0 := sample_parsers) (sample_authorizer true) "token" cube_sales None
    = Ok {| cube := cube_sales; cuts := map set_hidden [region_eu_cut] |}.
Proof.
  split; [split; [reflexivity | vm_compute; reflexivity]|].
  apply (restricted_cell_resolved
           (H := http_answering (PObject scenario_restrictions))
           (H0 := sample_parsers) (sample_authorizer true) "token" cube_sales
           scenario_restrictions [region_eu_cut]);
    [reflexivity | vm_compute; reflexivity].
Defined.

Lemma restricted_cell_unrestricted_witness :
  (_rightRequest (H := http_answering (PObject scenario_rights))
     (sample_authorizer true) "token" "restricted-cell" (ArgName "sales")
   = Ok (PObject scenario_rights)
   ∧ registered_specs scenario_rights cube_sales = [])
  ∧ restricted_cell (H := http_answering (PObject scenario_rights))
      (H0 := sample_parsers) (sample_authorizer true) "token" cube_sales
      (Some user_cell) = Ok user_cell
  ∧ restricted_cell (H := http_answering (PObject scenario_rights))
      (H0 := sample_parsers) (sample_authorizer true) "token" cube_sales None
    = Ok (Cell_of_cube cube_sales).
Proof.
  split; [split; [reflexivity | vm_compute; reflexivity]|].
  apply (restricted_cell_unrestricted
           (H := http_answering (PObject scenario_rights))
           (H0 := sample_parsers) (sample_authorizer true) "token" cube_sales
           scenario_rights user_cell);
    [reflexivity | vm_compute; reflexivity].
Defined.

Lemma restricted_cell_unresolved_witness :
  (_rightRequest (H := http_answering (PObject broken_restrictions))
     (sample_authorizer true) "token" "restricted-cell" (ArgName "sales")
   = Ok (PObject broken_restrictions)
   ∧ registered_specs broken_restrictions cube_sales
     = [region_eu] ++ JNumber 5 :: [region_eu]
   ∧ mapM (resolve_cut (H := sample_parsers) cube_sales) [region_eu]
     = Ok [region_eu_cut]
   ∧ resolve_cut (H := sample_parsers) cube_sales (JNumber 5)
     = Raise (AttributeError "get"))
  ∧ restricted_cell (H := http_answering (PObject broken_restrictions))
      (H0 := sample_parsers) (sample_authorizer true) "token" cube_sales
      (Some user_cell) = Raise (AttributeError "get").
Proof.
  split; [repeat split; vm_compute; reflexivity|].
  apply (restricted_cell_unresolved
           (H := http_answering (PObject broken_restrictions))
           (H0 := sample_parsers) (sample_authorizer true) "token" cube_sales
           (Some user_cell) broken_restrictions
           [region_eu] (JNumber 5) [region_eu] [region_eu_cut]);
    vm_compute; reflexivity.
Defined.

Lemma hierarchy_limits_resolved_witness :
  (_rightRequest (H := http_answering (PObject scenario_limits))
     (sample_authorizer true) "token" "hierarchy-limits" (ArgCube cube_sales)
   = Ok (PObject scenario_limits)
   ∧ mapM (resolve_limit (H := sample_parsers))
       (concat (map snd (default [] (hierarchy_limits_field scenario_limits))))
     = Ok [LimitLevel "date" None None; LimitRaw (JNumber 2);
           LimitLevel "geo" None None])
  ∧ hierarchy_limits_of (H := http_answering (PObject scenario_limits))
      (H0 := sample_parsers) (sample_authorizer true) "token" cube_sales
    = Ok [LimitLevel "date" None None; LimitRaw (JNumber 2)].
Proof.
  split; [split; [reflexivity | vm_compute; reflexivity]|].
  rewrite (hierarchy_limits_resolved
             (H := http_answering (PObject scenario_limits))
             (H0 := sample_parsers) (sample_authorizer true) "token"
             cube_sales scenario_limits
             [LimitLevel "date" None None; LimitRaw (JNumber 2);
              LimitLevel "geo" None None]);
    [vm_compute; reflexivity | reflexivity | vm_compute; reflexivity].
Defined.

Lemma hierarchy_limits_unresolved_witness :
  (_rightRequest (H := http_answering (PObject broken_limits))
     (sample_authorizer true) "token" "hierarchy-limits" (ArgCube cube_sales)
   = Ok (PObject broken_limits)
   ∧ concat (map snd (default [] (hierarchy_limits_field broken_limits)))
     = [JString "date"] ++ JString "" :: []
   ∧ mapM (resolve_limit (H := sample_parsers)) [JString "date"]
     = Ok [LimitLevel "date" None None]
   ∧ resolve_limit (H := sample_parsers) (JString "")
     = Raise (ArgumentError "Drilldown string should not be empty"))
  ∧ hierarchy_limits_of (H := http_answering (PObject broken_limits))
      (H0 := sample_parsers) (sample_authorizer true) "token" cube_sales
    = Raise (ArgumentError "Drilldown string should not be empty").
Proof.
  split; [repeat split; vm_compute; reflexivity|].
  apply (hierarchy_limits_unresolved
           (H := http_answering (PObject broken_limits))
           (H0 := sample_parsers) (sample_authorizer true) "token" cube_sales
           broken_limits [JString "date"] (JString "") []
           [LimitLevel "date" None None]);
    vm_compute; reflexivity.
Defined.

End AuthorizerMore.

(** ** More about the SQL utilities *)

Module SqlUtilsMore.

Import SqlUtils Spec Reference PyFacts Samples SqlUtilsFacts.
Import AuthorizerMore.

(** On the cuts of the cell, not being among the permission cuts is not
    carrying the tag. *)
Lemma data_cuts_filter (l : list Cut) :
  filter (λ cut,
            in_cuts cut (filter (λ cut, is_permission_cut cut = true) l)
            = false) l
  = filter (λ cut, ¬ is_permission_cut cut = true) l.
Proof.
  set (permissions := filter (λ cut, is_permission_cut cut = true) l).
  assert (Hin : ∀ cut, cut ∈ l →
            (in_cuts cut permissions = false
             ↔ ¬ is_permission_cut cut = true)).
  { intros cut Hcut. rewrite in_cuts_false. unfold permissions.
    rewrite list_elem_of_filter. tauto. }
  clearbody permissions.
  induction l as [|cut l IH]; [done|].
  rewrite !filter_cons.
  assert (Hcut := Hin cut (list_elem_of_here _ _)).
  rewrite IH by (intros c Hc; apply Hin; by apply list_elem_of_further).
  destruct (decide (in_cuts cut permissions = false)),
    (decide (¬ is_permission_cut cut = true)); tauto || done.
Qed.

Lemma filter_nil_complement {A} (P : A → Prop) `{!∀ x, Decision (P x)}
    (l : list A) :
  filter P l = [] → filter (λ x, ¬ P x) l = l.
Proof.
  induction l as [|x l IH]; [done|]. rewrite !filter_cons.
  destruct (decide (P x)); [discriminate|].
  intros Hl. rewrite decide_True by done. f_equal. by apply IH.
Qed.

(** What [extract_permissions_from_cell] returns, in one equation. *)
Lemma extract_permissions_eq (cell : Cell) :
  extract_permissions_from_cell (Some cell)
  = Ok (Some {| cube := cube cell;
                cuts := filter (λ cut, ¬ is_permission_cut cut = true)
                          (cuts cell) |},
        match filter (λ cut, is_permission_cut cut = true) (cuts cell) with
        | [] => None
        | permissions => Some {| cube := cube cell; cuts := permissions |}
        end).
Proof.
  destruct cell as [cube cuts]. unfold extract_permissions_from_cell. simpl.
  pose proof (data_cuts_filter cuts) as Hdata.
  destruct (filter (λ cut, is_permission_cut cut = true) cuts)
    as [|cut permissions] eqn:Hp; simpl.
  - by rewrite (filter_nil_complement _ _ Hp).
  - by rewrite Hdata.
Qed.

(** X16: the split loses and duplicates nothing: the cuts of the data cell
    followed by those of the permission cell are a rearrangement of the
    cuts of the given cell, each of the two keeps its cuts in the order
    they had, and both cells are cells of the cube of the given cell. *)
Theorem extract_permissions_rearranges (cell : option Cell) data permission :
  extract_permissions_from_cell cell = Ok (data, permission) →
  cuts_of data ++ cuts_of permission ≡ₚ cuts_of cell
  ∧ cuts_of data `sublist_of` cuts_of cell
  ∧ cuts_of permission `sublist_of` cuts_of cell
  ∧ (cube <$> data = cube <$> cell)
  ∧ (∀ c, permission = Some c → Some (cube c) = cube <$> cell).
Proof.
  destruct cell as [cell|]; [|by intros [= <- <-]].
  rewrite extract_permissions_eq. intros [= <- <-]. simpl.
  set (P := λ cut : Cut, is_permission_cut cut = true).
  assert (Hp : cuts_of
                 match filter P (cuts cell) with
                 | [] => None
                 | c :: l => Some {| cube := cube cell; cuts := c :: l |}
                 end = filter P (cuts cell)).
  { by destruct (filter P (cuts cell)). }
  rewrite Hp. split; [|split; [|split; [|split]]].
  - rewrite Permutation_app_comm. apply filter_app_complement.
  - apply sublist_filter.
  - apply sublist_filter.
  - done.
  - intros c. destruct (filter P (cuts cell)); [done|]. by intros [= <-].
Qed.

Lemma extract_permissions_rearranges_witness :
  extract_permissions_from_cell (Some mixed_cell)
  = Ok (Some {| cube := cube_sales; cuts := [year_cut] |},
        Some {| cube := cube_sales; cuts := [owner_cut] |})
  ∧ [year_cut] ++ [owner_cut] ≡ₚ cuts mixed_cell.
Proof.
  split; [vm_compute; reflexivity|].
  apply (extract_permissions_rearranges (Some mixed_cell)
           (Some {| cube := cube_sales; cuts := [year_cut] |})
           (Some {| cube := cube_sales; cuts := [owner_cut] |})).
  vm_compute; reflexivity.
Defined.



Lemma lower_ascii_idempotent c : lower_ascii (lower_ascii c) = lower_ascii c.
Proof. by destruct c as [[] [] [] [] [] [] [] []]. Qed.

Lemma lower_idempotent s : lower (lower s) = lower s.
Proof.
  induction s as [|c s IH]; simpl; [done|].
  by rewrite lower_ascii_idempotent, IH.
Qed.

Lemma lower_truthy s : truthy_str (lower s) = truthy_str s.
Proof. by destruct s. Qed.

(** X18: the direction is read without regard to letter case: two
    directions that agree in lower case order a column alike, so a
    direction orders as its lower-case form does; and the column of an
    ordering term is the column that was given. *)
Theorem order_column_direction column (o o' : string) :
  (lower o = lower o' →
   order_column column (Some o) = order_column column (Some o'))
  ∧ order_column column (Some o) = order_column column (Some (lower o))
  ∧ (∀ term, order_column column (Some o) = Ok term →
       column_key term = column_key column).
Proof.
  assert (Hci : ∀ a b, lower a = lower b →
            order_column column (Some a) = order_column column (Some b)).
  { intros a b Hab. unfold order_column. cbn [from_option id].
    rewrite <- (lower_truthy a), <- (lower_truthy b). by rewrite Hab. }
  split; [apply Hci|]. split; [apply Hci; by rewrite lower_idempotent|].
  intros term. unfold order_column. cbn [from_option id].
  destruct (truthy_str o); cbn [negb]; [|by intros [= <-]].
  destruct (startswith (lower o) "asc"); [by intros [= <-]|].
  destruct (startswith (lower o) "desc"); [by intros [= <-]|].
  discriminate.
Qed.

Lemma order_column_direction_witness :
  lower "DeSC" = lower "desc"
  ∧ order_column (NamedColumn "year") (Some "DeSC")
    = order_column (NamedColumn "year") (Some "desc").
Proof.
  split; [reflexivity|].
  apply (proj1 (order_column_direction (NamedColumn "year") "DeSC" "desc")).
  reflexivity.
Defined.

(** X19: with a page size above zero the pages tile the rows: row [i] is
    inside the window [paginate_query] sets for a page exactly when the
    page is [i] divided by the page size, rounded down; the statement
    under the window is the one given. *)
Theorem paginate_query_tiles statement (page page_size i : Z) :
  (0 < page_size)%Z →
  (in_window (paginate_query statement (Some page) (Some page_size)) i
   ↔ page = (i `div` page_size)%Z)
  ∧ paged_statement (paginate_query statement (Some page) (Some page_size))
    = paged_statement statement.
Proof.
  intros Hsize. split; [|done].
  unfold in_window, paginate_query. simpl. split.
  - intros [Hlo Hhi].
    apply Z.div_unique_pos with (i - page * page_size)%Z; lia.
  - intros ->. pose proof (Z.mul_div_le i page_size Hsize).
    pose proof (Z.mul_succ_div_gt i page_size Hsize). lia.
Qed.

Lemma paginate_query_tiles_witness :
  (0 < 20)%Z
  ∧ (in_window
       (paginate_query
          {| paged_statement :=
               {| stmt_columns := [NamedColumn "year"]; stmt_order_by := [] |};
             paged_offset := None;
             paged_limit := None |}
          (Some 2%Z) (Some 20%Z)) 45
     ↔ 2%Z = (45 `div` 20)%Z).
Proof.
  split; [done|].
  apply (paginate_query_tiles
           {| paged_statement :=
                {| stmt_columns := [NamedColumn "year"]; stmt_order_by := [] |};
              paged_offset := None;
              paged_limit := None |} 2 20 45).
  done.
Defined.

(** *** The ordered dictionary *)

Lemma od_mem_keys {V} k (d : OrderedDict V) :
  od_mem k d = true ↔ k ∈ od_keys d.
Proof.
  unfold od_mem, od_keys. rewrite any_true. split.
  - intros ([k' v] & Hin & Heq). apply String.eqb_eq in Heq. simpl in Heq.
    subst k'. apply list_elem_of_fmap. by exists (k, v).
  - intros Hin. apply list_elem_of_fmap in Hin as ([k' v] & -> & Hin).
    exists (k', v). split; [done|]. apply String.eqb_refl.
Qed.

Lemma od_mem_app {V} k (d e : OrderedDict V) :
  od_mem k (d ++ e) = od_mem k d || od_mem k e.
Proof. unfold od_mem, any. apply existsb_app. Qed.

(** Setting a key that is not there appends the item. *)
Lemma od_set_absent {V} k (v : V) (d : OrderedDict V) :
  od_mem k d = false → od_set k v d = d ++ [(k, v)].
Proof.
  induction d as [|[k' v'] d IH]; [done|]. unfold od_mem. simpl.
  destruct (String.eqb k' k); [discriminate|]. simpl.
  intros Hd. by rewrite IH.
Qed.

Lemma od_keys_set {V} k (v : V) (d : OrderedDict V) k' :
  k' ∈ od_keys (od_set k v d) ↔ k' = k ∨ k' ∈ od_keys d.
Proof.
  unfold od_keys. induction d as [|[k0 v0] d IH]; simpl.
  - rewrite list_elem_of_singleton, elem_of_nil. tauto.
  - destruct (String.eqb k0 k) eqn:E; simpl.
    + apply String.eqb_eq in E as ->. rewrite !elem_of_cons. tauto.
    + rewrite !elem_of_cons, IH. tauto.
Qed.

(** Looking a key up raises the key error exactly when the key is not
    there. *)
Lemma od_get_absent {V} k (d : OrderedDict V) :
  k ∉ od_keys d → od_get k d = Raise (KeyError k).
Proof.
  unfold od_keys. induction d as [|[k' v] d IH]; [done|]. simpl.
  rewrite not_elem_of_cons. intros [Hne Hd].
  destruct (String.eqb k' k) eqn:E; [|by apply IH].
  apply String.eqb_eq in E. congruence.
Qed.

Lemma od_get_present {V} k (d : OrderedDict V) :
  k ∈ od_keys d → ∃ v, od_get k d = Ok v.
Proof.
  unfold od_keys. induction d as [|[k' v] d IH]; simpl.
  - intros Hin. by apply elem_of_nil in Hin.
  - destruct (String.eqb k' k) eqn:E; [eauto|].
    apply String.eqb_neq in E. rewrite elem_of_cons.
    intros [->|Hd]; [done | by apply IH].
Qed.

Lemma od_keys_of_pairs {V} (pairs : list (string * V)) k :
  k ∈ od_keys (od_of_pairs pairs) ↔ k ∈ map fst pairs.
Proof.
  unfold od_of_pairs.
  assert (Hgen : ∀ d : OrderedDict V,
            k ∈ od_keys (foldl (λ d kv, od_set kv.1 kv.2 d) d pairs)
            ↔ k ∈ od_keys d ∨ k ∈ map fst pairs).
  { induction pairs as [|[k' v] pairs IH]; intros d; simpl.
    - rewrite elem_of_nil. tauto.
    - rewrite IH, od_keys_set, elem_of_cons. tauto. }
  rewrite Hgen. unfold od_keys at 1. simpl. rewrite elem_of_nil. tauto.
Qed.

(** *** The explicit order *)

Lemma order_column_known column direction :
  direction_known direction = true →
  ∃ term, order_column column direction = Ok term.
Proof.
  unfold direction_known, order_column.
  destruct (negb (truthy_str (default "" direction))); [eauto|].
  destruct (startswith (lower (default "" direction)) "asc"); [eauto|].
  destruct (startswith (lower (default "" direction)) "desc"); [eauto|].
  discriminate.
Qed.

Lemma explicit_cons columns attribute direction order final_order :
  order_query_explicit columns ((attribute, direction) :: order) final_order
  = (term ← ordering_term columns (attribute, direction);
     order_query_explicit columns order
       (if negb (od_mem attribute final_order)
        then od_set attribute term final_order else final_order)).
Proof.
  cbn [order_query_explicit]. unfold ordering_term, str, str_string. simpl.
  by destruct (od_get attribute columns).
Qed.

Lemma explicit_app columns order more final_order :
  order_query_explicit columns (order ++ more) final_order
  = (placed ← order_query_explicit columns order final_order;
     order_query_explicit columns more placed).
Proof.
  revert final_order.
  induction order as [|[a d] order IH]; intros final_order; [done|].
  rewrite <- app_comm_cons, !explicit_cons.
  destruct (ordering_term columns (a, d)); [|done].
  rewrite !bind_Ok. apply IH.
Qed.

(** The loop only appends, and what it returns holds every attribute of
    the order, each labelling a selected column. *)
Lemma explicit_placed columns order final_order placed :
  order_query_explicit columns order final_order = Ok placed →
  (∃ new, placed = final_order ++ new)
  ∧ ∀ a, a ∈ map fst order →
      od_mem a placed = true ∧ a ∈ od_keys columns.
Proof.
  revert final_order.
  induction order as [|[a d] order IH]; intros final_order.
  - intros [= <-]. split; [exists []; by rewrite app_nil_r|].
    intros a Ha. by apply elem_of_nil in Ha.
  - rewrite explicit_cons. unfold ordering_term. simpl.
    destruct (od_get a columns) as [c|] eqn:Hget; [|discriminate].
    rewrite bind_Ok.
    destruct (order_column c d) as [term|]; [|discriminate].
    rewrite bind_Ok. intros Hrest.
    destruct (IH _ Hrest) as [[new Hnew] Hall]. split.
    + destruct (od_mem a final_order) eqn:Hmem; simpl in Hnew; [eauto|].
      rewrite (od_set_absent _ _ _ Hmem), <- app_assoc in Hnew. eauto.
    + intros a' Ha'. apply elem_of_cons in Ha' as [->|Ha']; [|by apply Hall].
      split.
      * rewrite Hnew, od_mem_app. apply orb_true_iff. left.
        destruct (od_mem a final_order) eqn:Hmem; cbn [negb]; [done|].
        apply od_mem_keys, od_keys_set. by left.
      * destruct (decide (a ∈ od_keys columns)) as [|Hno]; [done|].
        by rewrite (od_get_absent _ _ Hno) in Hget.
Qed.

Lemma natural_none items (natural_order : gmap string (option string))
    final_order :
  (∀ name column, (name, column) ∈ items → natural_order !! name = None) →
  order_query_natural items natural_order final_order = Ok final_order.
Proof.
  induction items as [|[name column] items IH]; [done|]. intros Hnone.
  cbn [order_query_natural].
  rewrite (Hnone name column) by apply list_elem_of_here.
  rewrite bool_decide_eq_false_2 by (intros [? ?]; discriminate).
  rewrite !bind_Ok. apply IH. intros n c Hin.
  apply (Hnone n c). by apply list_elem_of_further.
Qed.

Section Browser.
Variable SPLIT_DIMENSION_NAME : string.

(** The ordering the loops start from: the split column when the
    statement has it. *)
Lemma order_query_eq statement order natural_order labels :
  order_query SPLIT_DIMENSION_NAME statement order natural_order labels
  = (placed ←
       order_query_explicit
         (od_of_pairs (zip (default [] labels) (stmt_columns statement)))
         (default [] order)
         (if has_column SPLIT_DIMENSION_NAME statement
          then [(SPLIT_DIMENSION_NAME, NamedColumn SPLIT_DIMENSION_NAME)]
          else []);
     final_order ←
       order_query_natural
         (od_of_pairs (zip (default [] labels) (stmt_columns statement)))
         (default ∅ natural_order) placed;
     Ok (order_by statement (od_values final_order))).
Proof.
  unfold order_query. cbv zeta.
  by destruct (has_column SPLIT_DIMENSION_NAME statement).
Qed.

Lemma order_query_no_natural statement order labels :
  order_query SPLIT_DIMENSION_NAME statement order None labels
  = (placed ←
       order_query_explicit
         (od_of_pairs (zip (default [] labels) (stmt_columns statement)))
         (default [] order)
         (if has_column SPLIT_DIMENSION_NAME statement
          then [(SPLIT_DIMENSION_NAME, NamedColumn SPLIT_DIMENSION_NAME)]
          else []);
     Ok (order_by statement (od_values placed))).
Proof.
  rewrite order_query_eq.
  destruct (order_query_explicit _ _ _) as [placed|]; [|done].
  rewrite !bind_Ok, natural_none; [done|].
  intros name column _. apply lookup_empty.
Qed.

(** X20: whenever [order_query] returns, the natural order has added
    nothing: the call without a natural order returns the same statement. *)
Theorem order_query_natural_unused statement order natural_order labels r :
  order_query SPLIT_DIMENSION_NAME statement order natural_order labels
  = Ok r →
  order_query SPLIT_DIMENSION_NAME statement order None labels = Ok r.
Proof.
  rewrite order_query_eq, order_query_no_natural.
  destruct (order_query_explicit _ _ _) as [placed|]; [|done].
  rewrite !bind_Ok.
  destruct (order_query_natural _ _ placed) as [final_order|] eqn:Hn;
    [|discriminate].
  apply order_query_natural_Ok in Hn as [-> _]. by rewrite bind_Ok.
Qed.

(** X21: an attribute of the explicit order that is not among the labels
    makes [order_query] raise the key error of that attribute, the terms
    before it being in order, whatever the natural order. *)
Theorem order_query_unknown_attribute statement before attribute direction
    after natural_order labels r :
  order_query SPLIT_DIMENSION_NAME statement (Some before) None labels
  = Ok r →
  attribute ∉ default [] labels →
  order_query SPLIT_DIMENSION_NAME statement
    (Some (before ++ (attribute, direction) :: after)) natural_order labels
  = Raise (KeyError attribute).
Proof.
  rewrite order_query_no_natural, order_query_eq. cbn [from_option id].
  intros Hbefore Hlabel. rewrite explicit_app.
  destruct (order_query_explicit _ before _) as [placed|]; [|discriminate].
  rewrite !bind_Ok, explicit_cons. unfold ordering_term. simpl.
  rewrite od_get_absent; [done|].
  rewrite od_keys_of_pairs. intros Hin. apply Hlabel.
  apply list_elem_of_fmap in Hin as ([l c] & -> & Hin).
  by apply elem_of_zip_l in Hin.
Qed.

(** X22: an attribute that the explicit order names again, with a
    direction [order_column] accepts, is passed by: the first term of the
    attribute stands, and the call returns or raises as it does without
    the repetition. *)
Theorem order_query_repeated_attribute statement before attribute direction
    after natural_order labels :
  attribute ∈ map fst before →
  direction_known direction = true →
  order_query SPLIT_DIMENSION_NAME statement
    (Some (before ++ (attribute, direction) :: after)) natural_order labels
  = order_query SPLIT_DIMENSION_NAME statement
      (Some (before ++ after)) natural_order labels.
Proof.
  intros Hin Hknown. rewrite !order_query_eq. cbn [from_option id].
  rewrite !explicit_app.
  destruct (order_query_explicit _ before _) as [placed|] eqn:Hb; [|done].
  rewrite !bind_Ok, explicit_cons. unfold ordering_term. simpl.
  destruct (explicit_placed _ _ _ _ Hb) as [_ Hall].
  destruct (Hall _ Hin) as [Hmem Hkey].
  destruct (od_get_present _ _ Hkey) as [c ->]. rewrite bind_Ok.
  destruct (order_column_known c _ Hknown) as [term ->].
  by rewrite bind_Ok, Hmem.
Qed.

(** X23: when the statement has the split column, the ordering terms
    [order_query] adds come after those the statement had, and the first
    of them is the split column in its default direction. *)
Theorem order_query_split_first statement order natural_order labels r :
  has_column SPLIT_DIMENSION_NAME statement = true →
  order_query SPLIT_DIMENSION_NAME statement order natural_order labels
  = Ok r →
  ∃ terms,
    stmt_order_by r
    = stmt_order_by statement ++ NamedColumn SPLIT_DIMENSION_NAME :: terms.
Proof.
  intros Hsplit Hr. apply order_query_natural_unused in Hr.
  rewrite order_query_no_natural, Hsplit in Hr.
  destruct (order_query_explicit _ _ _) as [placed|] eqn:He; [|discriminate].
  injection Hr as <-.
  apply explicit_placed in He as [[new ->] _].
  exists (od_values new). reflexivity.
Qed.

(** With attributes that are all different and none placed yet, the loop
    places the terms one after the other. *)
Lemma explicit_distinct columns order final_order :
  NoDup (map fst order) →
  (∀ a, a ∈ map fst order → od_mem a final_order = false) →
  match order_query_explicit columns order final_order with
  | Ok placed =>
      ∃ terms,
        mapM (ordering_term columns) order = Ok terms
        ∧ od_values placed = od_values final_order ++ terms
  | Raise e => mapM (ordering_term columns) order = Raise e
  end.
Proof.
  revert final_order.
  induction order as [|[a d] order IH]; intros final_order Hnd Hfresh.
  - simpl. exists []. by rewrite app_nil_r.
  - rewrite explicit_cons, mapM_cons.
    destruct (ordering_term columns (a, d)) as [term|e]; [|done].
    rewrite !bind_Ok.
    rewrite (Hfresh a) by apply list_elem_of_here. cbn [negb].
    rewrite od_set_absent by (apply Hfresh, list_elem_of_here).
    simpl in Hnd. apply NoDup_cons in Hnd as [Hnotin Hnd].
    specialize (IH (final_order ++ [(a, term)]) Hnd).
    destruct (order_query_explicit columns order _) as [placed|e].
    + destruct IH as (terms & -> & Hvalues).
      { intros a' Ha'. rewrite od_mem_app, (Hfresh a')
          by (by apply list_elem_of_further).
        unfold od_mem. simpl. rewrite orb_false_r.
        apply String.eqb_neq. intros ->. done. }
      rewrite bind_Ok. exists (term :: terms). split; [done|].
      rewrite Hvalues. unfold od_values. rewrite map_app, <- app_assoc.
      done.
    + rewrite IH; [done|].
      intros a' Ha'. rewrite od_mem_app, (Hfresh a')
        by (by apply list_elem_of_further).
      unfold od_mem. simpl. rewrite orb_false_r.
      apply String.eqb_neq. intros ->. done.
Qed.

(** X24: for a statement without the split column and an explicit order
    whose attributes are all different, [order_query] without a natural
    order adds the ordering terms of the pairs in the order given, after
    the terms the statement had, and raises what the first pair that has
    no term raises. *)
Theorem order_query_distinct statement order labels :
  has_column SPLIT_DIMENSION_NAME statement = false →
  NoDup (map fst order) →
  order_query SPLIT_DIMENSION_NAME statement (Some order) None labels
  = (terms ←
       mapM (ordering_term
               (od_of_pairs (zip (default [] labels) (stmt_columns statement))))
         order;
     Ok (order_by statement terms)).
Proof.
  intros Hsplit Hnd. rewrite order_query_no_natural, Hsplit.
  cbn [from_option id].
  pose proof (explicit_distinct
                (od_of_pairs (zip (default [] labels) (stmt_columns statement)))
                order [] Hnd (λ _ _, eq_refl)) as Hd.
  destruct (order_query_explicit _ order []) as [placed|e].
  - destruct Hd as (terms & -> & Hvalues). rewrite !bind_Ok.
    by rewrite Hvalues.
  - by rewrite Hd.
Qed.

End Browser.

Lemma order_query_natural_unused_witness :
  order_query split_name year_statement (Some [("year", Some "desc")])
    (Some {[ "week" := Some "asc" ]}) (Some ["year"; "month"])
  = Ok (order_by year_statement [Desc (NamedColumn "year")])
  ∧ order_query split_name year_statement (Some [("year", Some "desc")])
      None (Some ["year"; "month"])
    = Ok (order_by year_statement [Desc (NamedColumn "year")]).
Proof.
  split; [vm_compute; reflexivity|].
  apply (order_query_natural_unused split_name year_statement
           (Some [("year", Some "desc")]) (Some {[ "week" := Some "asc" ]})
           (Some ["year"; "month"])).
  vm_compute; reflexivity.
Defined.

Lemma order_query_unknown_attribute_witness :
  (order_query split_name year_statement (Some [("year", Some "asc")])
     None (Some ["year"; "month"])
   = Ok (order_by year_statement [Asc (NamedColumn "year")])
   ∧ "week" ∉ default [] (Some ["year"; "month"]))
  ∧ order_query split_name year_statement
      (Some ([("year", Some "asc")] ++ ("week", None) :: [("month", None)]))
      (Some {[ "month" := Some "asc" ]}) (Some ["year"; "month"])
    = Raise (KeyError "week").
Proof.
  assert (Hweek : "week" ∉ default [] (Some ["year"; "month"])).
  { simpl. rewrite !not_elem_of_cons. repeat split; try discriminate.
    apply not_elem_of_nil. }
  split; [split; [vm_compute; reflexivity | exact Hweek]|].
  apply (order_query_unknown_attribute split_name year_statement
           [("year", Some "asc")] "week" None [("month", None)]
           (Some {[ "month" := Some "asc" ]}) (Some ["year"; "month"])
           (order_by year_statement [Asc (NamedColumn "year")]));
    [vm_compute; reflexivity | exact Hweek].
Defined.

Lemma order_query_repeated_attribute_witness :
  ("year" ∈ map fst [("year", Some "asc")]
   ∧ direction_known (Some "desc") = true)
  ∧ order_query split_name year_statement
      (Some ([("year", Some "asc")] ++ ("year", Some "desc") :: []))
      None (Some ["year"; "month"])
    = order_query split_name year_statement
        (Some ([("year", Some "asc")] ++ [])) None (Some ["year"; "month"]).
Proof.
  split; [split; [apply list_elem_of_here | reflexivity]|].
  apply (order_query_repeated_attribute split_name year_statement
           [("year", Some "asc")] "year" (Some "desc") [] None
           (Some ["year"; "month"]));
    [apply list_elem_of_here | reflexivity].
Defined.

Lemma order_query_split_first_witness :
  (has_column split_name split_statement = true
   ∧ order_query split_name split_statement (Some [("year", None)]) None
       (Some [split_name; "year"])
     = Ok (order_by split_statement
             [NamedColumn split_name; NamedColumn "year"]))
  ∧ ∃ terms,
      stmt_order_by
        (order_by split_statement [NamedColumn split_name; NamedColumn "year"])
      = stmt_order_by split_statement ++ NamedColumn split_name :: terms.
Proof.
  split; [split; vm_compute; reflexivity|].
  apply (order_query_split_first split_name split_statement
           (Some [("year", None)]) None (Some [split_name; "year"]));
    vm_compute; reflexivity.
Defined.

Lemma order_query_distinct_witness :
  (has_column split_name year_statement = false
   ∧ NoDup (map fst [("month", Some "desc"); ("year", None)]))
  ∧ order_query split_name year_statement
      (Some [("month", Some "desc"); ("year", None)]) None
      (Some ["year"; "month"])
    = Ok (order_by year_statement
            [Desc (NamedColumn "month"); NamedColumn "year"]).
Proof.
  assert (Hnd : NoDup (map fst [("month", Some "desc"); ("year", @None string)])).
  { simpl. repeat constructor.
    - rewrite not_elem_of_cons. split; [discriminate | apply not_elem_of_nil].
    - apply not_elem_of_nil. }
  split; [split; [reflexivity | exact Hnd]|].
  rewrite (order_query_distinct split_name year_statement
             [("month", Some "desc"); ("year", None)]
             (Some ["year"; "month"]) eq_refl Hnd).
  vm_compute; reflexivity.
Defined.

End SqlUtilsMore.
